(** * FnCAS optimizers ([FnCAS/fncas/optimize.h]): model and properties

    The development embeds the parameter store [OptimizerParameters] and the
    three [Optimize] methods of [GradientDescentOptimizer],
    [GradientDescentOptimizerBT] and [ConjugateGradientOptimizer].

    - C++ [double] is IEEE 754 binary64, modelled by [spec_float] with
      precision 53 and maximal exponent 1024 (NaN payloads are not tracked).
    - [size_t] values (step counts) are natural numbers, the [int] counter
      [no_improvement_steps] is an integer.  The counter only moves by
      [++no_improvement_steps] and by a reset to 0, so the model and the code
      agree as long as it stays at or below [INT_MAX]; past that the
      increment is undefined in C++.  The counter never exceeds the number
      of iterations executed, and the theorem that follows it up to a
      threshold takes the threshold in the range of [int].
    - The compiled evaluators [fi] (value) and [gi] (gradient) are pure
      functions of the point.
    - [Optimize] runs in a small monad that can throw and that counts what the
      method does (iterations entered, gradient evaluations, candidate
      selections, line searches).  The counters are ghost state: no branch of
      the code reads them. *)

From Stdlib Require Import ZArith Bool List Lia Ascii Sorted.
From Stdlib Require Import Floats.SpecFloat.
From stdpp Require Import base option gmap strings.

Import ListNotations.
Local Open Scope Z_scope.

(* ================================================================== *)
(** ** C++ [double] *)
(* ================================================================== *)

Module Double.

Definition double : Type := spec_float.

Definition prec : Z := 53.
Definition emax : Z := 1024.

Definition add : double -> double -> double := SFadd prec emax.
Definition sub : double -> double -> double := SFsub prec emax.
Definition mul : double -> double -> double := SFmul prec emax.
Definition div : double -> double -> double := SFdiv prec emax.
Definition sqrt : double -> double := SFsqrt prec emax.
Definition neg : double -> double := SFopp.

(** [a < b], [a <= b]; C++ [a > b] is [ltb b a] and [a >= b] is [leb b a].
    Every comparison with a NaN is [false]. *)
Definition ltb : double -> double -> bool := SFltb.
Definition leb : double -> double -> bool := SFleb.

Definition is_nan (x : double) : bool :=
  match x with S754_nan => true | _ => false end.

(** Integer to [double] conversion (round to nearest even). *)
Definition of_int (z : Z) : double := binary_normalize prec emax z 0 false.

(** [static_cast<size_t>(x)]: truncation toward zero.  C++ defines the
    conversion only when the truncated value fits the target type
    ([0 <= x < 2^64]); on every other input the choice made here is
    arbitrary. *)
Definition to_size_t (x : double) : nat :=
  match x with
  | S754_finite false m e => Z.to_nat (Z.shiftl (Zpos m) e)
  | _ => O
  end.

(** [static_cast<int>(x)], same remark outside the range of [int]. *)
Definition to_int (x : double) : Z :=
  match x with
  | S754_finite s m e => cond_Zopp s (Z.shiftl (Zpos m) e)
  | _ => 0
  end.

(** The literals of [optimize.h], each the binary64 value nearest to the
    decimal constant (mantissa and binary exponent). *)
Definition zero : double := S754_zero false.                       (* 0.0 *)
Definition one : double := S754_finite false 4503599627370496 (-52). (* 1.0 *)
Definition minus_one : double := neg one.                          (* -1.0 *)
Definition two : double := S754_finite false 4503599627370496 (-51). (* 2.0 *)
Definition d0_01 : double := S754_finite false 5764607523034235 (-59).
Definition d0_05 : double := S754_finite false 7205759403792794 (-57).
Definition d0_2 : double := S754_finite false 7205759403792794 (-55).
Definition d0_5 : double := S754_finite false 4503599627370496 (-53).
Definition d0_8 : double := S754_finite false 7205759403792794 (-53).
Definition d1e_25 : double := S754_finite false 8711228593176025 (-136).
Definition d1e_8 : double := S754_finite false 6044629098073146 (-79).
Definition d1e10 : double := S754_finite false 5242880000000000 (-19).

(** [m * 2^e] is within half a unit in the last place of [num / den]. *)
Definition nearest_to (x : double) (num den : Z) : bool :=
  match x with
  | S754_finite false m e =>
      (Z.pos (digits2_pos m) =? prec) &&
      (if 0 <=? e
       then 2 * Z.abs (Zpos m * 2 ^ e * den - num) <=? 2 ^ e * den
       else 2 * Z.abs (Zpos m * den - num * 2 ^ (- e)) <=? den)
  | _ => false
  end.

End Double.

Import Double.

Declare Scope double_scope.
Delimit Scope double_scope with D.
Infix "+" := Double.add : double_scope.
Infix "-" := Double.sub : double_scope.
Infix "*" := Double.mul : double_scope.
Infix "/" := Double.div : double_scope.
Infix "<?" := Double.ltb : double_scope.
Infix "<=?" := Double.leb : double_scope.
Notation "- x" := (Double.neg x) : double_scope.

(* ================================================================== *)
(** ** Points and [ValueAndPoint] *)
(* ================================================================== *)

Definition Point : Type := list double.

Record ValueAndPoint : Type := mkVP { value : double; point : Point }.

(** [OptimizationResult] derives from [ValueAndPoint] and adds no field. *)
Definition OptimizationResult : Type := ValueAndPoint.

(** Modelled from the spec: [ValueAndPoint::operator<] is declared in
    [base.h], which is not part of the sources at hand; the ordering is by
    [value] alone, ascending. *)
Definition vp_lt (a b : ValueAndPoint) : bool := (value a <? value b)%D.

(** [std::min(a, b)] is [(b < a) ? b : a]; [std::max(a, b)] on doubles is
    [(a < b) ? b : a]. *)
Definition std_min (a b : ValueAndPoint) : ValueAndPoint :=
  if vp_lt b a then b else a.

Definition std_max (a b : double) : double :=
  if (a <? b)%D then b else a.

(* ================================================================== *)
(** ** Numeric primitives of [mathutil.h] *)
(* ================================================================== *)

(** Modelled from the spec: [IsNormal] lives in [mathutil.h], which is not
    part of the sources at hand; it is true iff the argument is finite and
    not NaN. *)
Definition IsNormal (x : double) : bool :=
  match x with
  | S754_zero _ | S754_finite _ _ _ => true
  | S754_infinity _ | S754_nan => false
  end.

(** Modelled from the spec: [SumVectors(a, b, ka, kb)] of [mathutil.h] is the
    element-wise [ka * a + kb * b] of two vectors of one dimension (the
    shorter one decides where they differ). *)
Fixpoint SumVectors (a b : Point) (ka kb : double) : Point :=
  match a, b with
  | x :: a', y :: b' => (ka * x + kb * y)%D :: SumVectors a' b' ka kb
  | _, _ => []
  end.

(** Modelled from the spec: the three-argument overload
    [SumVectors(a, b, kb)] of [mathutil.h], element-wise [a + kb * b]; with
    [kb = -step] it is the candidate [current.point - step * g]. *)
Fixpoint SumVectors3 (a b : Point) (kb : double) : Point :=
  match a, b with
  | x :: a', y :: b' => (x + kb * y)%D :: SumVectors3 a' b' kb
  | _, _ => []
  end.

(** Modelled from the spec: the dot product behind [L2Norm] and
    [PolakRibiere] of [mathutil.h], accumulated from [0.0] left to right. *)
Fixpoint DotProduct_from (acc : double) (a b : Point) : double :=
  match a, b with
  | x :: a', y :: b' => DotProduct_from (acc + x * y)%D a' b'
  | _, _ => acc
  end.

Definition DotProduct (a b : Point) : double := DotProduct_from zero a b.

(** Modelled from the spec: [L2Norm(v)] of [mathutil.h] is the sum of
    squares; callers take the square root. *)
Definition L2Norm (v : Point) : double := DotProduct v v.

(** Modelled from the spec: [FlipSign(v)] of [mathutil.h] negates every
    element. *)
Definition FlipSign (v : Point) : Point := map Double.neg v.

(** Modelled from the spec: [PolakRibiere(a, b)] of [mathutil.h] is
    [dot(a, a - b) / dot(b, b)]. *)
Definition PolakRibiere (a b : Point) : double :=
  (DotProduct a (SumVectors a b one minus_one) / DotProduct b b)%D.

(** Modelled from the spec: [Backtracking] of [mathutil.h].  The step starts
    at [t = 1.0]; a step is accepted when
    [f(point + t * direction) <= f(point) + alpha * t * dot(gradient(point), direction)];
    while it is not and fewer than [max_steps] shrinkings were made, [t] is
    multiplied by [beta]; once the budget is used up the last tried point is
    returned. *)
Fixpoint Backtracking_from (fi : Point -> double) (current_point direction : Point)
    (current_f_value slope alpha beta : double) (budget : nat) (t : double)
    : ValueAndPoint :=
  let test_point := SumVectors3 current_point direction t in
  let test_f_value := fi test_point in
  if (test_f_value <=? current_f_value + alpha * t * slope)%D
  then mkVP test_f_value test_point
  else match budget with
       | O => mkVP test_f_value test_point
       | S budget' =>
           Backtracking_from fi current_point direction current_f_value slope
             alpha beta budget' (t * beta)%D
       end.

Definition Backtracking (fi : Point -> double) (gi : Point -> Point)
    (current_point direction : Point) (alpha beta : double) (max_steps : nat)
    : ValueAndPoint :=
  Backtracking_from fi current_point direction (fi current_point)
    (DotProduct (gi current_point) direction) alpha beta max_steps one.

(* ================================================================== *)
(** ** [OptimizerParameters] *)
(* ================================================================== *)

(** The arithmetic types [T] accepted by [SetValue<T>] and [GetValue<T>]
    ([static_assert(std::is_arithmetic<T>::value)]): how a [T] is converted to
    the stored [double] and how [static_cast<T>] reads it back. *)
Class Arithmetic (T : Type) : Type := {
  to_double : T -> double;
  static_cast : double -> T
}.

#[export] Instance Arithmetic_double : Arithmetic double :=
  {| to_double := fun x => x; static_cast := fun x => x |}.

#[export] Instance Arithmetic_size_t : Arithmetic nat :=
  {| to_double := fun n => of_int (Z.of_nat n); static_cast := to_size_t |}.

#[export] Instance Arithmetic_int : Arithmetic Z :=
  {| to_double := of_int; static_cast := to_int |}.

(** [std::map<std::string, double> params_]. *)
Record OptimizerParameters : Type := mkParams { params_ : gmap string double }.

Definition no_parameters : OptimizerParameters := mkParams ∅.

(** [params_[name] = value;] *)
Definition SetValue {T} `{Arithmetic T} (name : string) (v : T)
    (p : OptimizerParameters) : OptimizerParameters :=
  mkParams (<[name := to_double v]> (params_ p)).

(** [if (params_.count(name)) return static_cast<T>(params_.at(name));
     else return default_value;] *)
Definition GetValue {T} `{Arithmetic T} (name : string) (default_value : T)
    (p : OptimizerParameters) : T :=
  match params_ p !! name with
  | Some x => static_cast x
  | None => default_value
  end.

(* ================================================================== *)
(** ** The monad of [Optimize] *)
(* ================================================================== *)

(** What a run did so far. *)
Record Counters : Type := mkCounters {
  iterations : nat;       (* main-loop iterations entered *)
  gradient_evals : nat;   (* calls of [gi] made by [Optimize] itself *)
  selections : nat;       (* passes over the fixed trial steps *)
  line_searches : nat     (* calls of [Backtracking] *)
}.

Definition no_counts : Counters := mkCounters 0 0 0 0.

(** A call either returns or throws ([CURRENT_THROW]). *)
Inductive outcome (A : Type) : Type :=
| Returned (a : A)
| Thrown (what : string).
Arguments Returned {A} a.
Arguments Thrown {A} what.

Definition M (A : Type) : Type := Counters -> outcome A * Counters.

#[export] Instance M_ret : MRet M := fun A a k => (Returned a, k).

#[export] Instance M_bind : MBind M := fun A B f m k =>
  match m k with
  | (Returned a, k') => f a k'
  | (Thrown what, k') => (Thrown what, k')
  end.

Definition throw {A} (what : string) : M A := fun k => (Thrown what, k).

Definition entering (k : Counters) : Counters :=
  mkCounters (S (iterations k)) (gradient_evals k) (selections k) (line_searches k).

Definition enter_iteration : M unit := fun k => (Returned tt, entering k).

Definition evaluating_gradient (k : Counters) : Counters :=
  mkCounters (iterations k) (S (gradient_evals k)) (selections k) (line_searches k).

Definition selecting (k : Counters) : Counters :=
  mkCounters (iterations k) (gradient_evals k) (S (selections k)) (line_searches k).

Definition searching (k : Counters) : Counters :=
  mkCounters (iterations k) (gradient_evals k) (selections k) (S (line_searches k)).

(** [gi(p)] called from the body of [Optimize]. *)
Definition eval_gradient (gi : Point -> Point) (p : Point) : M Point :=
  fun k => (Returned (gi p), evaluating_gradient k).

(** The result of one pass over the fixed trial steps. *)
Definition selection_pass {A} (a : A) : M A := fun k => (Returned a, selecting k).

(** The result of one call of [Backtracking]. *)
Definition line_search (next : ValueAndPoint) : M ValueAndPoint :=
  fun k => (Returned next, searching k).

(** How the main loop was left: its condition [iteration < max_steps] failed,
    or one of the two kinds of [break]. *)
Inductive stop_reason : Type := MaxStepsReached | NoImprovement | SmallGradient.

Inductive control (St : Type) : Type :=
| Continue (s : St)
| Break (why : stop_reason) (s : St).
Arguments Continue {St} s.
Arguments Break {St} why s.


(** [for (size_t iteration = ...; iteration < max_steps; ++iteration) body]
    with [remaining = max_steps - iteration]. *)
Fixpoint for_loop {St} (body : nat -> St -> M (control St))
    (remaining iteration : nat) (s : St) : M (stop_reason * St) :=
  match remaining with
  | O => mret (MaxStepsReached, s)
  | S remaining' =>
      c ← (enter_iteration ≫= fun _ => body iteration s);
      match c with
      | Continue s' => for_loop body remaining' (S iteration) s'
      | Break why s' => mret (why, s')
      end
  end.

(** The compiled evaluators of one objective. *)
Record Objective : Type := mkObjective {
  fi : Point -> double;   (* [fncas::f_intermediate] *)
  gi : Point -> Point     (* [fncas::g_intermediate] *)
}.

(** The improvement test shared by the three optimizers:
    [candidate.value / current.value > 1.0 - min_relative_per_step_improvement ||
     current.value - candidate.value < min_absolute_per_step_improvement]. *)
Definition insufficient_improvement (min_relative min_absolute : double)
    (candidate current : ValueAndPoint) : bool :=
  (one - min_relative <? value candidate / value current)%D
  || (value current - value candidate <? min_absolute)%D.

(** The largest [int] (32 bits). *)
Definition INT_MAX : Z := 2 ^ 31 - 1.

(** [no_improvement_steps >= no_improvement_steps_to_terminate], an [int]
    compared with a [double]. *)
Definition counter_reached (no_improvement_steps : Z)
    (no_improvement_steps_to_terminate : double) : bool :=
  (no_improvement_steps_to_terminate <=? of_int no_improvement_steps)%D.

(** [std::sqrt(fncas::L2Norm(v)) < grad_eps && iteration >= min_steps]. *)
Definition small_gradient (v : Point) (grad_eps : double)
    (iteration min_steps : nat) : bool :=
  (Double.sqrt (L2Norm v) <? grad_eps)%D && (min_steps <=? iteration)%nat.

(* ================================================================== *)
(** ** [GradientDescentOptimizer] *)
(* ================================================================== *)

Module GradientDescentOptimizer.

(** The locals that [Optimize] declares with their defaults and then
    overrides from the parameters. *)
Record config : Type := mkConfig {
  max_steps : nat;
  step_factor : double;
  min_absolute_per_step_improvement : double;
  min_relative_per_step_improvement : double;
  no_improvement_steps_to_terminate : double
}.

Definition defaults : config := mkConfig 5000 one d1e_25 d1e_25 two.

Definition read_parameters (parameters : option OptimizerParameters) : config :=
  match parameters with
  | None => defaults
  | Some p =>
      mkConfig
        (GetValue "max_steps" (max_steps defaults) p)
        (GetValue "step_factor" (step_factor defaults) p)
        (GetValue "min_absolute_per_step_improvement"
           (min_absolute_per_step_improvement defaults) p)
        (GetValue "min_relative_per_step_improvement"
           (min_relative_per_step_improvement defaults) p)
        (GetValue "no_improvement_steps_to_terminate"
           (no_improvement_steps_to_terminate defaults) p)
  end.

Record state : Type := mkState {
  current : ValueAndPoint;
  no_improvement_steps : Z
}.

(** [for (const double step : {0.01, 0.05, 0.2})] *)
Definition trial_steps : list double := [d0_01; d0_05; d0_2].

Definition candidate (fi : Point -> double) (current : ValueAndPoint)
    (g : Point) (step : double) : ValueAndPoint :=
  let candidate_point := SumVectors3 (point current) g (- step)%D in
  mkVP (fi candidate_point) candidate_point.

(** One round of the inner loop on [(best_candidate, has_valid_candidate)]. *)
Definition try_step (fi : Point -> double) (current : ValueAndPoint) (g : Point)
    (acc : ValueAndPoint * bool) (step : double) : ValueAndPoint * bool :=
  let c := candidate fi current g step in
  if IsNormal (value c) then (std_min (fst acc) c, true) else acc.

Definition try_steps (fi : Point -> double) (current : ValueAndPoint) (g : Point)
    : ValueAndPoint * bool :=
  fold_left (try_step fi current g) trial_steps (current, false).

(** The body of the main loop. *)
Definition iteration_body (cfg : config) (F : Objective) (iteration : nat)
    (st : state) : M (control state) :=
  g ← eval_gradient (gi F) (point (current st));
  '(best_candidate, has_valid_candidate) ←
    selection_pass (try_steps (fi F) (current st) g);
  if negb has_valid_candidate then throw "!fncas::IsNormal(value)"
  else if insufficient_improvement (min_relative_per_step_improvement cfg)
            (min_absolute_per_step_improvement cfg) best_candidate (current st)
  then
    let n := no_improvement_steps st + 1 in
    if counter_reached n (no_improvement_steps_to_terminate cfg)
    then mret (Break NoImprovement (mkState (current st) n))
    else mret (Continue (mkState best_candidate n))
  else mret (Continue (mkState best_candidate 0)).

Definition initial (F : Objective) (starting_point : Point) : state :=
  let starting_value := fi F starting_point in
  mkState (mkVP starting_value starting_point) 0.

Definition run (cfg : config) (F : Objective) (starting_point : Point)
    : M (stop_reason * state) :=
  for_loop (iteration_body cfg F) (max_steps cfg) 0 (initial F starting_point).

Definition Optimize (parameters : option OptimizerParameters) (F : Objective)
    (starting_point : Point) : M OptimizationResult :=
  r ← run (read_parameters parameters) F starting_point;
  mret (current (snd r)).

End GradientDescentOptimizer.

(* ================================================================== *)
(** ** The parameters of the two optimizers built on [Backtracking] *)
(* ================================================================== *)

(** [GradientDescentOptimizerBT::Optimize] and
    [ConjugateGradientOptimizer::Optimize] declare the same locals with the
    same defaults and read the same names. *)
Module LineSearchParameters.

Record config : Type := mkConfig {
  min_steps : nat;
  max_steps : nat;
  bt_alpha : double;
  bt_beta : double;
  bt_max_steps : nat;
  grad_eps : double;
  min_absolute_per_step_improvement : double;
  min_relative_per_step_improvement : double;
  no_improvement_steps_to_terminate : double
}.

Definition defaults : config :=
  mkConfig 3 5000 d0_5 d0_8 100 d1e_8 d1e_25 d1e_25 two.

Definition read_parameters (parameters : option OptimizerParameters) : config :=
  match parameters with
  | None => defaults
  | Some p =>
      mkConfig
        (GetValue "min_steps" (min_steps defaults) p)
        (GetValue "max_steps" (max_steps defaults) p)
        (GetValue "bt_alpha" (bt_alpha defaults) p)
        (GetValue "bt_beta" (bt_beta defaults) p)
        (GetValue "bt_max_steps" (bt_max_steps defaults) p)
        (GetValue "grad_eps" (grad_eps defaults) p)
        (GetValue "min_absolute_per_step_improvement"
           (min_absolute_per_step_improvement defaults) p)
        (GetValue "min_relative_per_step_improvement"
           (min_relative_per_step_improvement defaults) p)
        (GetValue "no_improvement_steps_to_terminate"
           (no_improvement_steps_to_terminate defaults) p)
  end.

End LineSearchParameters.

(* ================================================================== *)
(** ** [GradientDescentOptimizerBT] *)
(* ================================================================== *)

Module GradientDescentOptimizerBT.
Import LineSearchParameters.

Record state : Type := mkState {
  current : ValueAndPoint;
  no_improvement_steps : Z
}.

(** [Backtracking(fi, gi, current.point, direction, bt_alpha, bt_beta, bt_max_steps)]
    after [FlipSign(direction)]. *)
Definition next_of (cfg : config) (F : Objective) (current : ValueAndPoint)
    (direction : Point) : ValueAndPoint :=
  Backtracking (fi F) (gi F) (point current) (FlipSign direction)
    (bt_alpha cfg) (bt_beta cfg) (bt_max_steps cfg).

Definition iteration_body (cfg : config) (F : Objective) (iteration : nat)
    (st : state) : M (control state) :=
  direction ← eval_gradient (gi F) (point (current st));
  if small_gradient direction (grad_eps cfg) iteration (min_steps cfg)
  then mret (Break SmallGradient st)
  else
    next ← line_search (next_of cfg F (current st) direction);
    if insufficient_improvement (min_relative_per_step_improvement cfg)
         (min_absolute_per_step_improvement cfg) next (current st)
    then
      let n := no_improvement_steps st + 1 in
      if counter_reached n (no_improvement_steps_to_terminate cfg)
      then mret (Break NoImprovement (mkState (current st) n))
      else mret (Continue (mkState next n))
    else mret (Continue (mkState next 0)).

Definition initial (F : Objective) (starting_point : Point) : state :=
  mkState (mkVP (fi F starting_point) starting_point) 0.

Definition run (cfg : config) (F : Objective) (starting_point : Point)
    : M (stop_reason * state) :=
  for_loop (iteration_body cfg F) (max_steps cfg) 0 (initial F starting_point).

Definition Optimize (parameters : option OptimizerParameters) (F : Objective)
    (starting_point : Point) : M OptimizationResult :=
  r ← run (read_parameters parameters) F starting_point;
  mret (current (snd r)).

End GradientDescentOptimizerBT.

(* ================================================================== *)
(** ** [ConjugateGradientOptimizer] *)
(* ================================================================== *)

Module ConjugateGradientOptimizer.
Import LineSearchParameters.

Record state : Type := mkState {
  current : ValueAndPoint;
  current_gradient : Point;
  s : Point;                  (* direction to search for a minimum *)
  no_improvement_steps : Z
}.

Definition next_of (cfg : config) (F : Objective) (st : state) : ValueAndPoint :=
  Backtracking (fi F) (gi F) (point (current st)) (s st)
    (bt_alpha cfg) (bt_beta cfg) (bt_max_steps cfg).

(** [s = SumVectors(s, new_gradient, omega, -1.0)] with
    [omega = std::max(PolakRibiere(new_gradient, current_gradient), 0.0)]. *)
Definition next_direction (st : state) (new_gradient : Point) : Point :=
  let omega := std_max (PolakRibiere new_gradient (current_gradient st)) zero in
  SumVectors (s st) new_gradient omega minus_one.

(** The end of the body, past the improvement test: adopt, then the early
    stop on the norm of the new direction. *)
Definition adopt (cfg : config) (iteration : nat) (next : ValueAndPoint)
    (new_gradient s' : Point) (n : Z) : control state :=
  let st' := mkState next new_gradient s' n in
  if small_gradient s' (grad_eps cfg) iteration (min_steps cfg)
  then Break SmallGradient st'
  else Continue st'.

Definition iteration_body (cfg : config) (F : Objective) (iteration : nat)
    (st : state) : M (control state) :=
  next ← line_search (next_of cfg F st);
  new_gradient ← eval_gradient (gi F) (point next);
  let s' := next_direction st new_gradient in
  if insufficient_improvement (min_relative_per_step_improvement cfg)
       (min_absolute_per_step_improvement cfg) next (current st)
  then
    let n := no_improvement_steps st + 1 in
    if counter_reached n (no_improvement_steps_to_terminate cfg)
    then mret (Break NoImprovement
                 (mkState (current st) (current_gradient st) s' n))
    else mret (adopt cfg iteration next new_gradient s' n)
  else mret (adopt cfg iteration next new_gradient s' 0).

(** The state in which the main loop is entered. *)
Definition initial (F : Objective) (starting_point : Point) : state :=
  let current := mkVP (fi F starting_point) starting_point in
  let current_gradient := gi F (point current) in
  mkState current current_gradient (FlipSign current_gradient) 0.

Definition run (cfg : config) (F : Objective) (starting_point : Point)
    : M (stop_reason * state) :=
  let current := mkVP (fi F starting_point) starting_point in
  current_gradient ← eval_gradient (gi F) (point current);
  let s := FlipSign current_gradient in
  for_loop (iteration_body cfg F) (max_steps cfg) 0
    (mkState current current_gradient s 0).

Definition Optimize (parameters : option OptimizerParameters) (F : Objective)
    (starting_point : Point) : M OptimizationResult :=
  r ← run (read_parameters parameters) F starting_point;
  mret (current (snd r)).

End ConjugateGradientOptimizer.

(** Short names for the four modules above. *)
Module GD := GradientDescentOptimizer.
Module BT := GradientDescentOptimizerBT.
Module CG := ConjugateGradientOptimizer.
Module LS := LineSearchParameters.

(* ================================================================== *)
(** ** Objectives and parameter sets used in the examples *)
(* ================================================================== *)

(** A call made with nothing counted yet. *)
Definition run_M {A} (m : M A) : outcome A * Counters := m no_counts.

(** The first coordinate of a point. *)
Definition x0 (p : Point) : double := hd zero p.

(** [f(x) = k * x], gradient [k]. *)
Definition linear_objective (k : double) : Objective :=
  mkObjective (fun p => (k * x0 p)%D) (fun _ => [k]).

(** [f(x) = k * x^2], gradient [2 * k * x]. *)
Definition quadratic_objective (k : double) : Objective :=
  mkObjective (fun p => (k * (x0 p * x0 p))%D)
              (fun p => [(two * k * x0 p)%D]).

(** [f(x) = c], gradient zero in every coordinate. *)
Definition constant_objective (c : double) : Objective :=
  mkObjective (fun _ => c) (fun p => map (fun _ => zero) p).

(** [f(x) = x] with a gradient evaluator that reports an infinite slope. *)
Definition infinite_gradient_objective : Objective :=
  mkObjective x0 (fun _ => [S754_infinity false]).

(** [f(x) = x / x]: NaN at [x = 0], one elsewhere; the gradient evaluator
    reports the slope [1]. *)
Definition nan_at_zero_objective : Objective :=
  mkObjective (fun p => (x0 p / x0 p)%D) (fun _ => [one]).

Definition d10 : double := of_int 10.
Definition d1000 : double := of_int 1000.
Definition d1e11 : double := of_int 100000000000.

(* ================================================================== *)
(** ** Notions used to state the properties *)
(* ================================================================== *)

(** [enters body max_steps i s k j s' k']: the loop that stands at iteration
    [i] in state [s] (counters [k]) gets to execute iteration [j], in state
    [s'] (counters [k']). *)
Inductive enters {St} (body : nat -> St -> M (control St)) (max_steps : nat)
    : nat -> St -> Counters -> nat -> St -> Counters -> Prop :=
| enters_here i s k :
    (i < max_steps)%nat -> enters body max_steps i s k i s k
| enters_later i s k s1 k1 j s' k' :
    (i < max_steps)%nat ->
    body i s (entering k) = (Returned (Continue s1), k1) ->
    enters body max_steps (S i) s1 k1 j s' k' ->
    enters body max_steps i s k j s' k'.

(** The candidates of one iteration of plain gradient descent, in the order
    in which the code compares them: [current] first (the initial
    [best_candidate]), then the finite ones among the three trial points. *)
Definition ranked_candidates (fi : Point -> double) (current : ValueAndPoint)
    (g : Point) : list ValueAndPoint :=
  current ::
  List.filter (fun c => IsNormal (value c))
    (map (GD.candidate fi current g) GD.trial_steps).

(** No trial step gives a finite value. *)
Definition all_trials_fail (fi : Point -> double) (current : ValueAndPoint)
    (g : Point) : bool :=
  forallb (fun step => negb (IsNormal (value (GD.candidate fi current g step))))
    GD.trial_steps.

(* ================================================================== *)
(** ** [Bricks/time/chrono.h]: the mock clock ([CURRENT_MOCK_TIME]) *)
(* ================================================================== *)

(** [std::chrono::microseconds] counts are integers; the increments below
    stay under [max_mock_now_value], so no count leaves the range of its
    representation unless a caller passes it in. *)
Module MockTime.

Record MockNowImpl : Type := mkImpl {
  mock_now_value : Z;
  max_mock_now_value : Z
}.

(** The value-initialised [Singleton<MockNowImpl>()]. *)
Definition singleton : MockNowImpl := mkImpl 0 0.

(** [InconsistentSetNowException(was, attempted)]; its message is built from
    the two values. *)
Record InconsistentSetNowException : Type := mkException {
  was : Z;
  attempted : Z
}.

(** [Now()]: the current value is returned, and incremented as long as it is
    below the maximum. *)
Definition Now (impl : MockNowImpl) : Z * MockNowImpl :=
  let now := mock_now_value impl in
  (now,
   if mock_now_value impl <? max_mock_now_value impl
   then mkImpl (mock_now_value impl + 1) (max_mock_now_value impl)
   else impl).

(** [SetNow(us, max_us)]; [max_us] defaults to [microseconds(0)]. *)
Definition SetNow (us max_us : Z) (impl : MockNowImpl)
    : (unit + InconsistentSetNowException) * MockNowImpl :=
  if mock_now_value impl <=? us
  then (inl tt, mkImpl us max_us)
  else (inr (mkException (mock_now_value impl) us), impl).

Definition SetNow_default (us : Z) : MockNowImpl ->
    (unit + InconsistentSetNowException) * MockNowImpl :=
  SetNow us 0.

(** [ResetToZero()]: the maximum becomes [1000ll * 1000ll * 1000ll]. *)
Definition ResetToZero (impl : MockNowImpl) : MockNowImpl :=
  mkImpl 0 (1000 * 1000 * 1000).

(** [n] calls of [Now()] in a row: what they return, and the state left. *)
Fixpoint Now_times (n : nat) (impl : MockNowImpl) : list Z * MockNowImpl :=
  match n with
  | O => ([], impl)
  | S n' =>
      let '(now, impl') := Now impl in
      let '(rest, impl'') := Now_times n' impl' in
      (now :: rest, impl'')
  end.

(** A caller of the clock: [Now()] or [SetNow(us, max_us)]. *)
Inductive call : Type :=
| CallNow
| CallSetNow (us max_us : Z).

(** A sequence of calls: the values that the calls of [Now()] return, in
    order, and the state left.  A throwing [SetNow] is caught by the caller. *)
Fixpoint calls (cs : list call) (impl : MockNowImpl) : list Z * MockNowImpl :=
  match cs with
  | [] => ([], impl)
  | CallNow :: cs' =>
      let '(now, impl') := Now impl in
      let '(rest, impl'') := calls cs' impl' in
      (now :: rest, impl'')
  | CallSetNow us max_us :: cs' => calls cs' (snd (SetNow us max_us impl))
  end.

End MockTime.

(* ================================================================== *)
(** ** [Bricks/time/chrono.h]: the clock over [std::chrono::system_clock] *)
(* ================================================================== *)

Module EpochClockGuaranteeingMonotonicity.

(** [uint64_t] arithmetic wraps around, and so does the conversion of a
    signed count to [uint64_t]. *)
Definition uint64 (x : Z) : Z := x mod 2 ^ 64.

(** The count of a [std::chrono::microseconds] is a signed 64-bit integer:
    [std::chrono::microseconds(u)] for a [uint64_t u] keeps [u] below [2^63]
    and is [u - 2^64], a negative count, from there on. *)
Definition microseconds (u : Z) : Z := if u <? 2 ^ 63 then u else u - 2 ^ 64.

(** [Now()], given the signed count [system_now_us] that
    [duration_cast<microseconds>(system_clock::now().time_since_epoch()).count()]
    reads; the state is the member [monotonic_now_us], a [uint64_t]:
    [const uint64_t now_us = ...count();
     monotonic_now_us = std::max(monotonic_now_us + 1, now_us);
     return std::chrono::microseconds(monotonic_now_us);] *)
Definition Now (system_now_us : Z) (monotonic_now_us : Z) : Z * Z :=
  let now_us := uint64 system_now_us in
  let m := Z.max (uint64 (monotonic_now_us + 1)) now_us in
  (microseconds m, m).

(** Calls in a row, one per reading of the system clock: the values
    returned, and the member left. *)
Fixpoint Now_along (readings : list Z) (monotonic_now_us : Z) : list Z * Z :=
  match readings with
  | [] => ([], monotonic_now_us)
  | system_now_us :: readings' =>
      let '(now, st) := Now system_now_us monotonic_now_us in
      let '(rest, st') := Now_along readings' st in
      (now :: rest, st')
  end.

End EpochClockGuaranteeingMonotonicity.

(* ================================================================== *)
(** ** [Bricks/time/chrono.h]: [FixedSizeSerializer<std::chrono::microseconds>] *)
(* ================================================================== *)

(** A [std::string] is a list of characters here. *)
Module FixedSizeSerializer.

(** [std::numeric_limits<uint64_t>::digits10 + 1], with [digits10 = 19]. *)
Definition size_in_bytes : nat := 19 + 1.

Definition digit_char (d : Z) : ascii := ascii_of_nat (48 + Z.to_nat d).

(** [os << n] for an unsigned [n]: the decimal digits, most significant
    first, no leading zero ([0] prints as one digit).  The fuel bounds the
    number of digits. *)
Fixpoint decimal_from (fuel : nat) (n : Z) (acc : list ascii) : list ascii :=
  match fuel with
  | O => acc
  | S fuel' =>
      let acc' := digit_char (n mod 10) :: acc in
      if n / 10 =? 0 then acc' else decimal_from fuel' (n / 10) acc'
  end.

(** Twenty digits are enough for every [uint64_t]. *)
Definition decimal (n : Z) : list ascii := decimal_from 20 n [].

(** [std::setfill('0') << std::setw(width)]: fill characters in front, up
    to the width; a longer text is left as it is. *)
Definition setw_fill0 (width : nat) (s : list ascii) : list ascii :=
  repeat "0"%char (width - length s) ++ s.

(** [static_cast<uint64_t>(x.count())] and the way back into the signed count
    of a [microseconds]. *)
Definition to_uint64 (x : Z) : Z := x mod 2 ^ 64.
Definition to_int64 (u : Z) : Z := if u <? 2 ^ 63 then u else u - 2 ^ 64.

Definition PackToString (x : Z) : list ascii :=
  setw_fill0 size_in_bytes (decimal (to_uint64 x)).

(** [is >> x] for a [uint64_t x], as the standard library does it: leading
    white space is skipped, a sign is accepted, the digits that follow are
    read; without a digit the extraction fails and [x] is 0; a value that
    does not fit gives the largest [uint64_t]; a minus sign negates modulo
    [2^64]. *)
Definition is_space (c : ascii) : bool :=
  let n := nat_of_ascii c in
  (n =? 32)%nat || ((9 <=? n)%nat && (n <=? 13)%nat).

Definition digit_value (c : ascii) : option Z :=
  let n := nat_of_ascii c in
  if (48 <=? n)%nat && (n <=? 57)%nat then Some (Z.of_nat n - 48) else None.

Fixpoint skip_space (s : list ascii) : list ascii :=
  match s with
  | c :: s' => if is_space c then skip_space s' else s
  | [] => []
  end.

(** The leading digits of [s], accumulated onto [acc]; [None] when [s] does
    not start with a digit and none was read before ([any = false]). *)
Fixpoint read_digits (acc : Z) (any : bool) (s : list ascii) : option Z :=
  match s with
  | c :: s' =>
      match digit_value c with
      | Some d => read_digits (acc * 10 + d) true s'
      | None => if any then Some acc else None
      end
  | [] => if any then Some acc else None
  end.

Definition extract_uint64 (s : list ascii) : Z :=
  let s1 := skip_space s in
  let '(negative, s2) :=
    match s1 with
    | c :: s' =>
        if Ascii.eqb c "-"%char then (true, s')
        else if Ascii.eqb c "+"%char then (false, s')
        else (false, s1)
    | [] => (false, s1)
    end in
  match read_digits 0 false s2 with
  | None => 0
  | Some v =>
      if 2 ^ 64 <=? v then 2 ^ 64 - 1
      else if negative then (- v) mod 2 ^ 64 else v
  end.

Definition UnpackFromString (s : list ascii) : Z :=
  to_int64 (extract_uint64 s).

(** [a < b] on [std::string]: lexicographic, character by character. *)
Fixpoint string_compare (a b : list ascii) : comparison :=
  match a, b with
  | [], [] => Eq
  | [], _ :: _ => Lt
  | _ :: _, [] => Gt
  | x :: a', y :: b' =>
      match Nat.compare (nat_of_ascii x) (nat_of_ascii y) with
      | Eq => string_compare a' b'
      | c => c
      end
  end.

(** The text of fixed width [w] made of the [w] low decimal digits of [n]. *)
Fixpoint fixed (w : nat) (n : Z) : list ascii :=
  match w with
  | O => []
  | S w' => digit_char (n / 10 ^ Z.of_nat w' mod 10) :: fixed w' n
  end.

(** The number that a text of decimal digits denotes. *)
Fixpoint number_of (s : list ascii) : Z :=
  match s with
  | [] => 0
  | c :: s' => (Z.of_nat (nat_of_ascii c) - 48) * 10 ^ Z.of_nat (length s') + number_of s'
  end.

Definition is_digit (c : ascii) : Prop := exists d, 0 <= d < 10 /\ c = digit_char d.

End FixedSizeSerializer.

(* ================================================================== *)
(** ** [Storage/rest.h]: the RESTful endpoint of one storage field *)
(* ================================================================== *)

(** One request against the endpoint that [RESTfulStorageEndpointRegisterer]
    registers for a field, with [BasicREST] as the implementation.  The key
    and entry types, their parsers and the field container come from other
    headers and are parameters.  The handler runs inside a storage
    transaction; transactions of one storage run one after the other, so a
    request is a function of the field as the transaction finds it. *)
Module RESTfulStorage.

Inductive HTTPResponseCode : Type :=
| OK | NoContent | BadRequest | NotFound | MethodNotAllowed.

Record Request : Type := mkRequest {
  method : string;
  url_path_args : list string;
  body : string
}.

Definition newline : string := String (ascii_of_nat 10) EmptyString.

Section Endpoint.

Context {KEY ENTRY FIELD : Type}.
Variable FromString : string -> KEY.
(** [ParseJSON<T_ENTRY>]; [None] stands for [TypeSystemParseJSONException]. *)
Variable ParseJSON : string -> option ENTRY.
(** [field[key]], an [ImmutableOptional<ENTRY>]. *)
Variable lookup : FIELD -> KEY -> option ENTRY.
Variable Add : ENTRY -> FIELD -> FIELD.
Variable Erase : KEY -> FIELD -> FIELD.

(** What a response carries: a text, or an entry (sent as its JSON, with the
    default code). *)
Inductive content : Type :=
| Text (s : string)
| Entry (e : ENTRY).

Record Response : Type := mkResponse {
  sent : content;
  code : HTTPResponseCode
}.

(** [BasicREST::RESTfulWrapper<GET, ...>::Run] *)
Definition Run_GET (field : FIELD) (key : KEY) : Response :=
  match lookup field key with
  | Some result => mkResponse (Entry result) OK
  | None => mkResponse (Text ("Nope." ++ newline)) NotFound
  end.

(** [BasicREST::RESTfulWrapper<POST, ...>::Run] *)
Definition Run_POST (field : FIELD) (entry : ENTRY) : Response * FIELD :=
  (mkResponse (Text ("Added." ++ newline)) NoContent, Add entry field).

(** [BasicREST::RESTfulWrapper<DELETE, ...>::Run] *)
Definition Run_DELETE (field : FIELD) (key : KEY) : Response * FIELD :=
  (mkResponse (Text ("Deleted." ++ newline)) NoContent, Erase key field).

(** The lambda registered under ["/api/" + field name]. *)
Definition handle (request : Request) (field : FIELD) : Response * FIELD :=
  if String.eqb (method request) "GET" then
    match url_path_args request with
    | [key_as_string] => (Run_GET field (FromString key_as_string), field)
    | _ => (mkResponse (Text "Need resource key in the URL.") BadRequest, field)
    end
  else if String.eqb (method request) "POST" then
    match url_path_args request with
    | [] =>
        match ParseJSON (body request) with
        | Some entry => Run_POST field entry
        | None => (mkResponse (Text "Bad JSON.") BadRequest, field)
        end
    | _ :: _ =>
        (mkResponse (Text "Should not have resource key in the URL") BadRequest, field)
    end
  else if String.eqb (method request) "DELETE" then
    match url_path_args request with
    | [key_as_string] => Run_DELETE field (FromString key_as_string)
    | _ => (mkResponse (Text "Need resource key in the URL.") BadRequest, field)
    end
  else (mkResponse (Text "") MethodNotAllowed, field).

(** Requests one after the other: the responses, and the field left. *)
Fixpoint serve (requests : list Request) (field : FIELD) : list Response * FIELD :=
  match requests with
  | [] => ([], field)
  | request :: rest =>
      let '(response, field') := handle request field in
      let '(responses, field'') := serve rest field' in
      (response :: responses, field'')
  end.

End Endpoint.

(** A field for the examples: entries are pairs of a key and a number, kept
    in a finite map; the text of an entry is its key (the empty text does not
    parse). *)
Definition example_lookup (field : gmap string (string * Z)) (key : string)
    : option (string * Z) := field !! key.
Definition example_Add (entry : string * Z) (field : gmap string (string * Z))
    : gmap string (string * Z) := <[fst entry := entry]> field.
Definition example_Erase (key : string) (field : gmap string (string * Z))
    : gmap string (string * Z) := delete key field.
Definition example_ParseJSON (s : string) : option (string * Z) :=
  if String.eqb s "" then None else Some (s, 1).
Definition example_handle : Request -> gmap string (string * Z) ->
    Response (ENTRY := string * Z) * gmap string (string * Z) :=
  handle (fun s => s) example_ParseJSON example_lookup example_Add example_Erase.

End RESTfulStorage.

(* ================================================================== *)
(** * Properties *)
(* ================================================================== *)

(** ** The literals *)

Example literals_nearest :
  nearest_to d0_01 1 100 && nearest_to d0_05 5 100 && nearest_to d0_2 2 10
  && nearest_to d0_5 5 10 && nearest_to d0_8 8 10
  && nearest_to d1e_25 1 (10 ^ 25) && nearest_to d1e_8 1 (10 ^ 8)
  && nearest_to d1e10 (10 ^ 10) 1 && nearest_to one 1 1 && nearest_to two 2 1
  = true.
Proof. vm_compute. reflexivity. Qed.

Example literals_from_integers :
  of_int 1 = one /\ of_int 2 = two /\ of_int (10 ^ 10) = d1e10 /\
  of_int 0 = zero.
Proof. vm_compute. repeat split. Qed.

(** [1.0 - 1e-25] rounds to [1.0]: with the default parameters the relative
    test reads [candidate / current > 1.0]. *)
Example one_minus_default_relative : (one - d1e_25)%D = one.
Proof. vm_compute. reflexivity. Qed.

(** The three optimizers on the bowl [f(x) = x^2] from [x = 10], default
    parameters: each returns a value below [1e-8]. *)
Example quadratic_bowl :
  forallb (fun r => match fst r with
                    | Returned v => (value v <? d1e_8)%D
                    | Thrown _ => false
                    end)
    [run_M (GD.Optimize None (quadratic_objective one) [d10]);
     run_M (BT.Optimize None (quadratic_objective one) [d10]);
     run_M (CG.Optimize None (quadratic_objective one) [d10])] = true.
Proof. vm_compute. reflexivity. Qed.

(** ** The order on [double] *)

Section DoubleOrder.

Ltac order_cases :=
  repeat match goal with
  | |- context [Pos.compare_cont Eq ?a ?b] =>
      change (Pos.compare_cont Eq a b) with (Pos.compare a b)
  | H : context [Pos.compare_cont Eq ?a ?b] |- _ =>
      change (Pos.compare_cont Eq a b) with (Pos.compare a b) in H
  end;
  repeat match goal with
  | H : context [Z.compare ?a ?b] |- _ =>
      destruct (Z.compare_spec a b); cbn in H
  | |- context [Z.compare ?a ?b] =>
      destruct (Z.compare_spec a b); cbn
  | H : context [Pos.compare ?a ?b] |- _ =>
      destruct (Pos.compare_spec a b); cbn in H
  | |- context [Pos.compare ?a ?b] =>
      destruct (Pos.compare_spec a b); cbn
  end;
  subst; try discriminate; try reflexivity; try lia.

Ltac by_cases3 a b c :=
  unfold Double.ltb, Double.leb, SFltb, SFleb;
  destruct a as [[]|[]| |[] ? ?], b as [[]|[]| |[] ? ?], c as [[]|[]| |[] ? ?];
  cbn; intros; try discriminate; try reflexivity; order_cases.

Ltac by_cases2 a b :=
  unfold Double.ltb, Double.leb, SFltb, SFleb;
  destruct a as [[]|[]| |[] ? ?], b as [[]|[]| |[] ? ?];
  cbn; intros; try discriminate; try reflexivity; order_cases.

Lemma ltb_trans a b c :
  (a <? b)%D = true -> (b <? c)%D = true -> (a <? c)%D = true.
Proof. by_cases3 a b c. Qed.

Lemma leb_ltb_trans a b c :
  (a <=? b)%D = true -> (b <? c)%D = true -> (a <? c)%D = true.
Proof. by_cases3 a b c. Qed.

Lemma ltb_leb_trans a b c :
  (a <? b)%D = true -> (b <=? c)%D = true -> (a <? c)%D = true.
Proof. by_cases3 a b c. Qed.

Lemma ltb_irrefl a : (a <? a)%D = false.
Proof.
  unfold Double.ltb, SFltb.
  destruct a as [[]|[]| |[] m e]; cbn; try reflexivity;
    rewrite Z.compare_refl;
    change (Pos.compare_cont Eq m m) with (Pos.compare m m);
    rewrite Pos.compare_refl; reflexivity.
Qed.

Lemma ltb_asym a b : (a <? b)%D = true -> (b <? a)%D = false.
Proof.
  intros H. destruct (b <? a)%D eqn:E; [|reflexivity].
  rewrite <- (ltb_irrefl a). symmetry. exact (ltb_trans _ _ _ H E).
Qed.

Lemma ltb_leb a b : (a <? b)%D = true -> (a <=? b)%D = true.
Proof.
  unfold Double.ltb, Double.leb, SFltb, SFleb.
  destruct (SFcompare a b) as [[]|]; congruence.
Qed.

Lemma leb_refl a : is_nan a = false -> (a <=? a)%D = true.
Proof.
  unfold Double.leb, SFleb.
  destruct a as [[]|[]| |[] m e]; cbn; try reflexivity; try discriminate;
    intros _; rewrite Z.compare_refl;
    change (Pos.compare_cont Eq m m) with (Pos.compare m m);
    rewrite Pos.compare_refl; reflexivity.
Qed.

Lemma ltb_not_nan a b :
  (a <? b)%D = true -> is_nan a = false /\ is_nan b = false.
Proof.
  unfold Double.ltb, SFltb.
  destruct a as [[]|[]| |[] ? ?], b as [[]|[]| |[] ? ?]; cbn;
    intros; try discriminate; split; reflexivity.
Qed.

(** Away from NaN the order is total. *)
Lemma not_ltb_leb a b :
  is_nan a = false -> is_nan b = false ->
  (a <? b)%D = false -> (b <=? a)%D = true.
Proof. by_cases2 a b. Qed.

Lemma IsNormal_not_nan x : IsNormal x = true -> is_nan x = false.
Proof. destruct x; cbn; congruence. Qed.

(** [c - c] is [+0.0] for every finite [c]. *)
Lemma sub_diag c : IsNormal c = true -> (c - c)%D = zero.
Proof.
  destruct c as [[]|[]| |sg m e]; cbn; try discriminate; try reflexivity.
  intros _. unfold Double.sub, SFsub. rewrite Z.sub_diag. reflexivity.
Qed.

End DoubleOrder.

(** ** The main loop *)

Section ForLoop.

Context {St : Type}.
Variable body : nat -> St -> M (control St).

Lemma for_loop_O i s k :
  for_loop body 0 i s k = (Returned (MaxStepsReached, s), k).
Proof. reflexivity. Qed.

Lemma for_loop_S r i s k :
  for_loop body (S r) i s k =
  match body i s (entering k) with
  | (Returned (Continue s'), k') => for_loop body r (S i) s' k'
  | (Returned (Break why s'), k') => (Returned (why, s'), k')
  | (Thrown what, k') => (Thrown what, k')
  end.
Proof.
  cbn [for_loop]. unfold mbind, M_bind, enter_iteration.
  destruct (body i s (entering k)) as [[[s'|why s']|what] k']; reflexivity.
Qed.

(** The loop throws exactly when it gets to execute an iteration whose body
    throws. *)
Lemma for_loop_thrown r : forall i s k what,
  fst (for_loop body r i s k) = Thrown what <->
  exists j s' k', enters body (i + r) i s k j s' k' /\
                  fst (body j s' (entering k')) = Thrown what.
Proof.
  induction r as [|r IH]; intros i s k what.
  - rewrite for_loop_O. split; [discriminate|].
    intros (j & s' & k' & He & _). inversion He; lia.
  - rewrite for_loop_S. replace (i + S r)%nat with (S i + r)%nat by lia.
    destruct (body i s (entering k)) as [[[s1|why s1]|w] k1] eqn:E.
    + rewrite IH. split.
      * intros (j & s' & k' & He & Ht). exists j, s', k'. split; [|exact Ht].
        eapply enters_later; eauto. lia.
      * intros (j & s' & k' & He & Ht). inversion He; subst.
        -- rewrite E in Ht. discriminate.
        -- match goal with H : body _ _ _ = _ |- _ => rewrite E in H; inversion H; subst end.
           eauto.
    + split; [discriminate|].
      intros (j & s' & k' & He & Ht). inversion He; subst.
      * rewrite E in Ht. discriminate.
      * match goal with H : body _ _ _ = _ |- _ => rewrite E in H; discriminate end.
    + cbn. split.
      * intros [= ->]. exists i, s, k. split; [constructor; lia|]. rewrite E. reflexivity.
      * intros (j & s' & k' & He & Ht). inversion He; subst.
        -- rewrite E in Ht. cbn in Ht. congruence.
        -- match goal with H : body _ _ _ = _ |- _ => rewrite E in H; discriminate end.
Qed.

(** A body that never throws gives a loop that never throws. *)
Lemma for_loop_returns :
  (forall i s k, exists c k', body i s k = (Returned c, k')) ->
  forall r i s k, exists why s' k', for_loop body r i s k = (Returned (why, s'), k').
Proof.
  intros Hb. induction r as [|r IH]; intros i s k.
  - rewrite for_loop_O. eauto.
  - rewrite for_loop_S. destruct (Hb i s (entering k)) as ([s1|why s1] & k1 & ->); eauto.
Qed.

(** A counter that one iteration raises by at most [d] is raised by at most
    [r * d] by [r] remaining iterations. *)
Lemma for_loop_counts (c : Counters -> nat) (d : nat) :
  (forall i s k, (c (snd (body i s (entering k))) <= c k + d)%nat) ->
  forall r i s k, (c (snd (for_loop body r i s k)) <= c k + r * d)%nat.
Proof.
  intros Hb. induction r as [|r IH]; intros i s k.
  - rewrite for_loop_O. cbn. lia.
  - rewrite for_loop_S. specialize (Hb i s k).
    destruct (body i s (entering k)) as [[[s1|why s1]|w] k1]; cbn in *; try lia.
    specialize (IH (S i) s1 k1). lia.
Qed.

(** A loop whose every iteration either breaks for a reason in [P] or keeps
    an invariant that cannot hold from iteration [n] on executes fewer than
    [n - i] further full iterations; what the invariant and the breaking
    iterations give of the state ([J]) holds of the state the loop ends in. *)
Lemma for_loop_stops_within (I : nat -> St -> Prop) (P : stop_reason -> Prop)
    (J : St -> Prop) (n : nat) :
  (forall i s k, I i s -> (i < n)%nat ->
     exists c k', body i s (entering k) = (Returned c, k') /\
                  iterations k' = S (iterations k) /\
                  match c with
                  | Break why s' => P why /\ J s'
                  | Continue s' => I (S i) s' /\ (S i < n)%nat
                  end) ->
  (forall i s, I i s -> (i < n)%nat -> J s) ->
  forall r i s k, I i s -> (i < n)%nat ->
    exists why s' k',
      for_loop body r i s k = (Returned (why, s'), k') /\
      (iterations k' <= iterations k + (n - i))%nat /\
      (iterations k' <= iterations k + r)%nat /\
      ((n - i <= r)%nat -> P why) /\
      J s'.
Proof.
  intros Hb HJ. induction r as [|r IH]; intros i s k Hi Hlt.
  - rewrite for_loop_O. do 3 eexists. split; [reflexivity|]. cbn.
    split; [lia|]. split; [lia|]. split; [lia|]. exact (HJ i s Hi Hlt).
  - rewrite for_loop_S.
    destruct (Hb i s k Hi Hlt) as ([s1|why s1] & k1 & -> & Hk & Hc).
    + destruct Hc as [Hi1 Hlt1].
      destruct (IH (S i) s1 k1 Hi1 Hlt1) as (why & s' & k' & -> & H1 & H2 & H3 & H4).
      do 3 eexists. split; [reflexivity|].
      split; [lia|]. split; [lia|]. split; [|exact H4].
      intros. apply H3. lia.
    + destruct Hc as [Hc Hs1]. do 3 eexists. split; [reflexivity|].
      split; [lia|]. split; [lia|]. split; [|exact Hs1]. intros _. exact Hc.
Qed.

End ForLoop.

(** ** The bodies of the three loops, as equations *)

Ltac run_monad :=
  unfold mbind, M_bind, mret, M_ret, eval_gradient, selection_pass,
    line_search, throw, enter_iteration.

Lemma gd_body_eq cfg F it st k :
  GD.iteration_body cfg F it st k =
  let r := GD.try_steps (fi F) (GD.current st) (gi F (point (GD.current st))) in
  let k' := selecting (evaluating_gradient k) in
  let n := GD.no_improvement_steps st + 1 in
  if negb (snd r) then (Thrown "!fncas::IsNormal(value)", k')
  else if insufficient_improvement (GD.min_relative_per_step_improvement cfg)
            (GD.min_absolute_per_step_improvement cfg) (fst r) (GD.current st)
  then if counter_reached n (GD.no_improvement_steps_to_terminate cfg)
       then (Returned (Break NoImprovement (GD.mkState (GD.current st) n)), k')
       else (Returned (Continue (GD.mkState (fst r) n)), k')
  else (Returned (Continue (GD.mkState (fst r) 0)), k').
Proof.
  unfold GD.iteration_body. run_monad. cbn zeta.
  destruct (GD.try_steps _ _ _) as [best has_valid]. cbn [fst snd].
  destruct has_valid; cbn [negb]; [|reflexivity].
  destruct (insufficient_improvement _ _ _ _); [|reflexivity].
  destruct (counter_reached _ _); reflexivity.
Qed.

Lemma bt_body_eq cfg F it st k :
  BT.iteration_body cfg F it st k =
  let direction := gi F (point (BT.current st)) in
  let k1 := evaluating_gradient k in
  let next := BT.next_of cfg F (BT.current st) direction in
  let n := BT.no_improvement_steps st + 1 in
  if small_gradient direction (LS.grad_eps cfg) it (LS.min_steps cfg)
  then (Returned (Break SmallGradient st), k1)
  else if insufficient_improvement (LS.min_relative_per_step_improvement cfg)
            (LS.min_absolute_per_step_improvement cfg) next (BT.current st)
  then if counter_reached n (LS.no_improvement_steps_to_terminate cfg)
       then (Returned (Break NoImprovement (BT.mkState (BT.current st) n)), searching k1)
       else (Returned (Continue (BT.mkState next n)), searching k1)
  else (Returned (Continue (BT.mkState next 0)), searching k1).
Proof.
  unfold BT.iteration_body. run_monad. cbn zeta.
  destruct (small_gradient _ _ _ _); [reflexivity|].
  destruct (insufficient_improvement _ _ _ _); [|reflexivity].
  destruct (counter_reached _ _); reflexivity.
Qed.

Lemma cg_body_eq cfg F it st k :
  CG.iteration_body cfg F it st k =
  let next := CG.next_of cfg F st in
  let new_gradient := gi F (point next) in
  let s' := CG.next_direction st new_gradient in
  let k' := evaluating_gradient (searching k) in
  let n := CG.no_improvement_steps st + 1 in
  if insufficient_improvement (LS.min_relative_per_step_improvement cfg)
       (LS.min_absolute_per_step_improvement cfg) next (CG.current st)
  then if counter_reached n (LS.no_improvement_steps_to_terminate cfg)
       then (Returned (Break NoImprovement
                         (CG.mkState (CG.current st) (CG.current_gradient st) s' n)), k')
       else (Returned (CG.adopt cfg it next new_gradient s' n), k')
  else (Returned (CG.adopt cfg it next new_gradient s' 0), k').
Proof.
  unfold CG.iteration_body. run_monad. cbn zeta.
  destruct (insufficient_improvement _ _ _ _); [|reflexivity].
  destruct (counter_reached _ _); reflexivity.
Qed.

Lemma gd_run_eq cfg F start k :
  GD.run cfg F start k =
  for_loop (GD.iteration_body cfg F) (GD.max_steps cfg) 0 (GD.initial F start) k.
Proof. reflexivity. Qed.

Lemma cg_run_eq cfg F start k :
  CG.run cfg F start k =
  for_loop (CG.iteration_body cfg F) (LS.max_steps cfg) 0 (CG.initial F start)
    (evaluating_gradient k).
Proof. reflexivity. Qed.

(** [Optimize] returns the [current] of the state in which the loop ends. *)
Lemma optimize_of_run {St} (run : M (stop_reason * St)) (cur : St -> ValueAndPoint) k :
  (r ← run; mret (cur (snd r))) k =
  match run k with
  | (Returned r, k') => (Returned (cur (snd r)), k')
  | (Thrown what, k') => (Thrown what, k')
  end.
Proof. run_monad. destruct (run k) as [[r|w] k']; reflexivity. Qed.

(** ** The selection among the trial steps *)

(** [std::min] folded over a list, from an initial best. *)
Lemma fold_min_spec (l : list ValueAndPoint) : forall a : ValueAndPoint,
  Forall (fun c => is_nan (value c) = false) l ->
  exists idx : nat,
    (a :: l) !! idx = Some (fold_left std_min l a) /\
    (forall (j : nat) c, (a :: l) !! j = Some c ->
       (value c <? value (fold_left std_min l a))%D = false) /\
    (forall (j : nat) e, (j < idx)%nat -> (a :: l) !! j = Some e ->
       (value (fold_left std_min l a) <? value e)%D = true).
Proof.
  induction l as [|c l IH]; intros a Hl.
  - exists 0%nat. cbn. split; [reflexivity|]. split.
    + intros [|j] x; cbn; [|discriminate]. intros [= <-]. apply ltb_irrefl.
    + intros; lia.
  - inversion Hl as [|? ? Hc Hl']; subst.
    cbn [fold_left]. destruct (IH (std_min a c) Hl') as (idx & Hidx & Hmin & Hfirst).
    set (m := fold_left std_min l (std_min a c)) in *.
    unfold std_min, vp_lt in Hidx, Hmin, Hfirst.
    destruct (value c <? value a)%D eqn:Hca.
    + (* the new candidate replaces the best *)
      exists (S idx). split; [exact Hidx|]. split.
      * intros [|[|j]] x Hx; cbn in Hx.
        -- injection Hx as Hx; subst x.
           destruct idx as [|idx].
           ++ cbn in Hidx. injection Hidx as Hm. rewrite <- Hm. apply ltb_asym, Hca.
           ++ apply ltb_asym. eapply ltb_trans; [|exact Hca].
              apply (Hfirst 0%nat c); [lia|reflexivity].
        -- injection Hx as Hx; subst x. apply (Hmin 0%nat). reflexivity.
        -- apply (Hmin (S j)). exact Hx.
      * intros [|j] e Hj He; cbn in He.
        -- injection He as He; subst e.
           destruct idx as [|idx].
           ++ cbn in Hidx. injection Hidx as Hm. rewrite <- Hm. exact Hca.
           ++ eapply ltb_trans; [|exact Hca].
              apply (Hfirst 0%nat c); [lia|reflexivity].
        -- apply (Hfirst j e); [lia|exact He].
    + (* the best stays *)
      destruct idx as [|idx].
      * exists 0%nat. cbn in Hidx. split; [exact Hidx|]. split; [|intros; lia].
        injection Hidx as Hm.
        intros [|[|j]] x Hx; cbn in Hx.
        -- injection Hx as Hx; subst x. apply (Hmin 0%nat). reflexivity.
        -- injection Hx as Hx; subst x. rewrite <- Hm. exact Hca.
        -- apply (Hmin (S j)). exact Hx.
      * exists (S (S idx)). split; [exact Hidx|].
        assert (Hma : (value m <? value a)%D = true)
          by (apply (Hfirst 0%nat a); [lia|reflexivity]).
        split.
        -- intros [|[|j]] x Hx; cbn in Hx.
           ++ injection Hx as Hx; subst x. apply (Hmin 0%nat). reflexivity.
           ++ injection Hx as Hx; subst x.
              destruct (value c <? value m)%D eqn:Hxm; [|reflexivity].
              rewrite (ltb_trans _ _ _ Hxm Hma) in Hca. discriminate.
           ++ apply (Hmin (S j)). exact Hx.
        -- intros [|[|j]] e Hj He; cbn in He.
           ++ injection He as He; subst e. exact Hma.
           ++ injection He as He; subst e.
              eapply ltb_leb_trans; [exact Hma|].
              apply not_ltb_leb; [exact Hc| |exact Hca].
              apply (ltb_not_nan _ _ Hma).
           ++ apply (Hfirst (S j) e); [lia|exact He].
Qed.

(** The inner loop computes the folded [std::min] of the ranked candidates
    and records whether one trial value was finite. *)
Lemma try_steps_eq fi cur g :
  GD.try_steps fi cur g =
  (fold_left std_min (tl (ranked_candidates fi cur g)) cur,
   negb (all_trials_fail fi cur g)).
Proof.
  unfold GD.try_steps, ranked_candidates, all_trials_fail, GD.trial_steps.
  cbn [fold_left map List.filter forallb tl]. unfold GD.try_step.
  destruct (IsNormal (value (GD.candidate fi cur g d0_01)));
    destruct (IsNormal (value (GD.candidate fi cur g d0_05)));
    destruct (IsNormal (value (GD.candidate fi cur g d0_2)));
    reflexivity.
Qed.

Lemma ranked_candidates_not_nan fi cur g :
  Forall (fun c => is_nan (value c) = false) (tl (ranked_candidates fi cur g)).
Proof.
  unfold ranked_candidates. cbn [tl]. apply List.Forall_forall.
  intros c Hc. apply List.filter_In in Hc as [_ Hc]. apply IsNormal_not_nan, Hc.
Qed.

(** The best candidate never compares above [current]. *)
Lemma best_not_above fi cur g :
  let best := fst (GD.try_steps fi cur g) in
  (value cur <? value best)%D = false /\
  (is_nan (value cur) = false -> (value best <=? value cur)%D = true).
Proof.
  cbn zeta. rewrite try_steps_eq. cbn [fst].
  pose proof (fold_min_spec (tl (ranked_candidates fi cur g)) cur
                (ranked_candidates_not_nan fi cur g))
    as (idx & Hidx & Hmin & Hfirst).
  split.
  - apply (Hmin 0%nat). reflexivity.
  - intros Hnan. destruct idx as [|idx].
    + assert (Hm : cur = fold_left std_min (tl (ranked_candidates fi cur g)) cur)
        by (apply (inj Some); exact Hidx).
      rewrite <- Hm. apply leb_refl, Hnan.
    + apply ltb_leb. apply (Hfirst 0%nat); [lia|reflexivity].
Qed.

(** ** Adoption of the candidate (C1) *)

(** C1, as amended.  In an iteration of [GradientDescentOptimizer::Optimize]
    in which a trial step gave a finite value, [current] becomes the
    iteration's best candidate unless the improvement is insufficient and the
    counter thereby reaches [no_improvement_steps_to_terminate]: that
    iteration leaves the loop with [current] unchanged.  In
    [GradientDescentOptimizerBT::Optimize] an iteration adopts
    [current = next] unless it leaves the loop, through the gradient-norm
    check or through the counter, and then [current] is unchanged. *)
Theorem C1_adoption_unless_break :
  (forall cfg F it st k,
     let best := fst (GD.try_steps (fi F) (GD.current st) (gi F (point (GD.current st)))) in
     let n := GD.no_improvement_steps st + 1 in
     snd (GD.try_steps (fi F) (GD.current st) (gi F (point (GD.current st)))) = true ->
     exists c k', GD.iteration_body cfg F it st k = (Returned c, k') /\
       if insufficient_improvement (GD.min_relative_per_step_improvement cfg)
            (GD.min_absolute_per_step_improvement cfg) best (GD.current st)
          && counter_reached n (GD.no_improvement_steps_to_terminate cfg)
       then c = Break NoImprovement (GD.mkState (GD.current st) n)
       else exists n', c = Continue (GD.mkState best n')) /\
  (forall cfg F it st k,
     let direction := gi F (point (BT.current st)) in
     let next := BT.next_of cfg F (BT.current st) direction in
     let n := BT.no_improvement_steps st + 1 in
     exists c k', BT.iteration_body cfg F it st k = (Returned c, k') /\
       if small_gradient direction (LS.grad_eps cfg) it (LS.min_steps cfg)
       then c = Break SmallGradient st
       else if insufficient_improvement (LS.min_relative_per_step_improvement cfg)
                 (LS.min_absolute_per_step_improvement cfg) next (BT.current st)
               && counter_reached n (LS.no_improvement_steps_to_terminate cfg)
       then c = Break NoImprovement (BT.mkState (BT.current st) n)
       else exists n', c = Continue (BT.mkState next n')).
Proof.
  split.
  - intros cfg F it st k best n Hvalid. rewrite gd_body_eq. cbn zeta.
    rewrite Hvalid. cbn [negb]. fold best. fold n.
    destruct (insufficient_improvement _ _ _ _); cbn [andb].
    + destruct (counter_reached _ _); eauto.
    + eauto.
  - intros cfg F it st k direction next n. rewrite bt_body_eq. cbn zeta.
    fold direction. fold next. fold n.
    destruct (small_gradient _ _ _ _); [eauto|].
    destruct (insufficient_improvement _ _ _ _); cbn [andb].
    + destruct (counter_reached _ _); eauto.
    + eauto.
Qed.

Lemma C1_adoption_unless_break_witness :
  let F := linear_objective one in
  let st := GD.initial F [neg d10] in
  snd (GD.try_steps (fi F) (GD.current st) (gi F (point (GD.current st)))) = true /\
  exists c k', GD.iteration_body GD.defaults F 0 st no_counts = (Returned c, k') /\
    exists n', c = Continue (GD.mkState
                  (fst (GD.try_steps (fi F) (GD.current st) (gi F (point (GD.current st))))) n').
Proof.
  split; [vm_compute; reflexivity|].
  exact (proj1 C1_adoption_unless_break GD.defaults (linear_objective one) 0%nat
           (GD.initial (linear_objective one) [neg d10]) no_counts
           eq_refl).
Defined.

(** C1 as stated fails.  With the default parameters, [f(x) = x] and the
    starting point [-10], the second iteration of plain gradient descent has
    three finite trial values and a best candidate below [current], yet the
    loop is left with [current] as it was and [Optimize] returns it; gradient
    descent with backtracking does the same with its [next]. *)
Lemma C1_counterexample :
  let F := linear_objective one in
  let start := [neg d10] in
  (exists st1 k1 st2 k2,
     GD.iteration_body GD.defaults F 0 (GD.initial F start) (entering no_counts)
       = (Returned (Continue st1), k1) /\
     GD.iteration_body GD.defaults F 1 st1 (entering k1)
       = (Returned (Break NoImprovement st2), k2) /\
     snd (GD.try_steps (fi F) (GD.current st1) (gi F (point (GD.current st1)))) = true /\
     GD.current st2 = GD.current st1 /\
     (value (fst (GD.try_steps (fi F) (GD.current st1) (gi F (point (GD.current st1)))))
        <? value (GD.current st2))%D = true /\
     run_M (GD.Optimize None F start) = (Returned (GD.current st2), k2)) /\
  (exists st1 k1 st2 k2,
     BT.iteration_body LS.defaults F 0 (BT.initial F start) (entering no_counts)
       = (Returned (Continue st1), k1) /\
     BT.iteration_body LS.defaults F 1 st1 (entering k1)
       = (Returned (Break NoImprovement st2), k2) /\
     BT.current st2 = BT.current st1 /\
     (value (BT.next_of LS.defaults F (BT.current st1) (gi F (point (BT.current st1))))
        <? value (BT.current st2))%D = true /\
     run_M (BT.Optimize None F start) = (Returned (BT.current st2), k2)).
Proof.
  split.
  - do 4 eexists. split; [vm_compute; reflexivity|].
    split; [vm_compute; reflexivity|].
    split; [vm_compute; reflexivity|].
    split; [vm_compute; reflexivity|].
    split; vm_compute; reflexivity.
  - do 4 eexists. split; [vm_compute; reflexivity|].
    split; [vm_compute; reflexivity|].
    split; [vm_compute; reflexivity|].
    split; vm_compute; reflexivity.
Qed.

(** ** The failure of plain gradient descent (C2) *)

Lemma optimize_thrown {St} (run : M (stop_reason * St)) (cur : St -> ValueAndPoint) k what :
  fst ((r ← run; mret (cur (snd r))) k) = Thrown what <-> fst (run k) = Thrown what.
Proof.
  rewrite optimize_of_run. destruct (run k) as [[r|w] k']; cbn; split; congruence.
Qed.

Lemma gd_body_thrown cfg F it st k what :
  fst (GD.iteration_body cfg F it st k) = Thrown what <->
  all_trials_fail (fi F) (GD.current st) (gi F (point (GD.current st))) = true /\
  what = "!fncas::IsNormal(value)".
Proof.
  rewrite gd_body_eq. cbn zeta. rewrite try_steps_eq. cbn [fst snd].
  rewrite negb_involutive.
  destruct (all_trials_fail _ _ _).
  - cbn. split; [intros [= <-]; auto | intros [_ ->]; reflexivity].
  - destruct (insufficient_improvement _ _ _ _);
      [destruct (counter_reached _ _)|]; cbn; split; try discriminate;
      intros [? _]; discriminate.
Qed.

Lemma gd_optimize_thrown parameters F start k what :
  fst (GD.Optimize parameters F start k) = Thrown what <->
  exists j st kj,
    enters (GD.iteration_body (GD.read_parameters parameters) F)
      (GD.max_steps (GD.read_parameters parameters)) 0 (GD.initial F start) k j st kj /\
    all_trials_fail (fi F) (GD.current st) (gi F (point (GD.current st))) = true /\
    what = "!fncas::IsNormal(value)".
Proof.
  unfold GD.Optimize. rewrite optimize_thrown, gd_run_eq, for_loop_thrown.
  cbn [Nat.add]. split.
  - intros (j & st & kj & He & Ht). apply gd_body_thrown in Ht. eauto.
  - intros (j & st & kj & He & Ht). exists j, st, kj. split; [exact He|].
    apply gd_body_thrown, Ht.
Qed.

Lemma bt_body_returns cfg F it st k :
  exists c k', BT.iteration_body cfg F it st k = (Returned c, k').
Proof.
  rewrite bt_body_eq. cbn zeta.
  destruct (small_gradient _ _ _ _); [eauto|].
  destruct (insufficient_improvement _ _ _ _); [destruct (counter_reached _ _)|]; eauto.
Qed.

Lemma cg_body_returns cfg F it st k :
  exists c k', CG.iteration_body cfg F it st k = (Returned c, k').
Proof.
  rewrite cg_body_eq. cbn zeta.
  destruct (insufficient_improvement _ _ _ _); [destruct (counter_reached _ _)|]; eauto.
Qed.

Lemma bt_optimize_returns parameters F start k :
  exists r k', BT.Optimize parameters F start k = (Returned r, k').
Proof.
  unfold BT.Optimize. rewrite optimize_of_run. unfold BT.run.
  destruct (for_loop_returns _ (bt_body_returns (LS.read_parameters parameters) F)
              (LS.max_steps (LS.read_parameters parameters)) 0%nat
              (BT.initial F start) k) as (why & st & k' & ->).
  eauto.
Qed.

Lemma cg_optimize_returns parameters F start k :
  exists r k', CG.Optimize parameters F start k = (Returned r, k').
Proof.
  unfold CG.Optimize. rewrite optimize_of_run, cg_run_eq.
  destruct (for_loop_returns _ (cg_body_returns (LS.read_parameters parameters) F)
              (LS.max_steps (LS.read_parameters parameters)) 0%nat
              (CG.initial F start) (evaluating_gradient k)) as (why & st & k' & ->).
  eauto.
Qed.

(** C2.  [GradientDescentOptimizer::Optimize] throws if and only if the loop
    gets to execute an iteration in which none of the three trial steps gives
    a finite value; the exception is always the same one; the two optimizers
    built on [Backtracking] always return. *)
Theorem C2_failure_iff_no_valid_candidate parameters F start k :
  ((exists what, fst (GD.Optimize parameters F start k) = Thrown what) <->
   (exists j st kj,
      enters (GD.iteration_body (GD.read_parameters parameters) F)
        (GD.max_steps (GD.read_parameters parameters)) 0 (GD.initial F start) k j st kj /\
      all_trials_fail (fi F) (GD.current st) (gi F (point (GD.current st))) = true)) /\
  (forall what, fst (GD.Optimize parameters F start k) = Thrown what ->
                what = "!fncas::IsNormal(value)") /\
  (exists r k', BT.Optimize parameters F start k = (Returned r, k')) /\
  (exists r k', CG.Optimize parameters F start k = (Returned r, k')).
Proof.
  split; [|split; [|split]].
  - split.
    + intros (what & H). apply gd_optimize_thrown in H as (j & st & kj & He & Ha & _).
      eauto.
    + intros (j & st & kj & He & Ha). exists "!fncas::IsNormal(value)".
      apply gd_optimize_thrown. eauto 6.
  - intros what H. apply gd_optimize_thrown in H as (j & st & kj & _ & _ & ->).
    reflexivity.
  - apply bt_optimize_returns.
  - apply cg_optimize_returns.
Qed.

(** An objective whose gradient is infinite makes the three trial values of
    the first iteration infinite: the run throws. *)
Lemma C2_failure_iff_no_valid_candidate_witness :
  let F := infinite_gradient_objective in
  (exists j st kj,
     enters (GD.iteration_body (GD.read_parameters None) F)
       (GD.max_steps (GD.read_parameters None)) 0 (GD.initial F [one]) no_counts j st kj /\
     all_trials_fail (fi F) (GD.current st) (gi F (point (GD.current st))) = true) /\
  (exists what, fst (GD.Optimize None F [one] no_counts) = Thrown what) /\
  fst (GD.Optimize None F [one] no_counts) = Thrown "!fncas::IsNormal(value)".
Proof.
  assert (H : exists j st kj,
     enters (GD.iteration_body (GD.read_parameters None) infinite_gradient_objective)
       (GD.max_steps (GD.read_parameters None)) 0
       (GD.initial infinite_gradient_objective [one]) no_counts j st kj /\
     all_trials_fail (fi infinite_gradient_objective) (GD.current st)
       (gi infinite_gradient_objective (point (GD.current st))) = true).
  { exists 0%nat, (GD.initial infinite_gradient_objective [one]), no_counts.
    split; [constructor; cbn; lia | vm_compute; reflexivity]. }
  destruct (C2_failure_iff_no_valid_candidate None infinite_gradient_objective
              [one] no_counts) as ([_ Hthrows] & Hwhat & _).
  split; [exact H|]. split; [exact (Hthrows H)|].
  destruct (Hthrows H) as (what & E). rewrite E. f_equal. exact (Hwhat what E).
Defined.

(** ** The best candidate of an iteration (C3) *)

(** C3, as amended.  The best candidate of an iteration of plain gradient
    descent is the stable minimum by value of the list made of [current]
    followed by the finite candidates [current.point - step * g] for the steps
    0.01, 0.05, 0.2 in that order: it is an entry of the list, no entry
    compares below it, and it compares strictly below every entry listed
    before it.  So [current] itself is kept when no finite candidate is
    strictly better, and a finite candidate is chosen only if it is. *)
Theorem C3_best_is_stable_minimum fi cur g :
  let best := fst (GD.try_steps fi cur g) in
  let ranked := ranked_candidates fi cur g in
  exists idx : nat,
    ranked !! idx = Some best /\
    (forall (j : nat) c, ranked !! j = Some c -> (value c <? value best)%D = false) /\
    (forall (j : nat) e, (j < idx)%nat -> ranked !! j = Some e ->
       (value best <? value e)%D = true).
Proof.
  cbn zeta. rewrite try_steps_eq. cbn [fst].
  exact (fold_min_spec (tl (ranked_candidates fi cur g)) cur
           (ranked_candidates_not_nan fi cur g)).
Qed.

Lemma C3_best_is_stable_minimum_witness :
  let F := quadratic_objective one in
  let cur := GD.current (GD.initial F [d10]) in
  let g := gi F (point cur) in
  ranked_candidates (fi F) cur g !! 3%nat = Some (fst (GD.try_steps (fi F) cur g)) /\
  exists idx : nat,
    ranked_candidates (fi F) cur g !! idx = Some (fst (GD.try_steps (fi F) cur g)) /\
    (forall (j : nat) c, ranked_candidates (fi F) cur g !! j = Some c ->
       (value c <? value (fst (GD.try_steps (fi F) cur g)))%D = false) /\
    (forall (j : nat) e, (j < idx)%nat -> ranked_candidates (fi F) cur g !! j = Some e ->
       (value (fst (GD.try_steps (fi F) cur g)) <? value e)%D = true).
Proof.
  split; [vm_compute; reflexivity|].
  exact (C3_best_is_stable_minimum (fi (quadratic_objective one))
           (GD.current (GD.initial (quadratic_objective one) [d10]))
           (gi (quadratic_objective one) [d10])).
Defined.

(** C3 as stated fails.  For [f(x) = 1000 * x^2] at [x = 1] the three trial
    points [-19], [-99], [-399] all have finite values, all above the current
    value 1000, and the best candidate of the iteration is [current] itself,
    which is none of the points [current.point - step * g]. *)
Lemma C3_counterexample :
  let F := quadratic_objective d1000 in
  let cur := GD.current (GD.initial F [one]) in
  let g := gi F (point cur) in
  let best := fst (GD.try_steps (fi F) cur g) in
  snd (GD.try_steps (fi F) cur g) = true /\
  map (GD.candidate (fi F) cur g) GD.trial_steps =
    [mkVP (of_int 361000) [of_int (-19)];
     mkVP (of_int 9801000) [of_int (-99)];
     mkVP (of_int 159201000) [of_int (-399)]] /\
  best = mkVP d1000 [one] /\
  Forall (fun step => point best <> point (GD.candidate (fi F) cur g step))
    GD.trial_steps.
Proof.
  split; [vm_compute; reflexivity|].
  split; [vm_compute; reflexivity|].
  split; [vm_compute; reflexivity|].
  repeat constructor; vm_compute; discriminate.
Qed.

(** ** Monotonicity (C4) *)




(** ** What a run costs (C5) *)

Lemma gd_body_counts cfg F it st k :
  snd (GD.iteration_body cfg F it st k) = selecting (evaluating_gradient k).
Proof.
  rewrite gd_body_eq. cbn zeta. destruct (negb _); [reflexivity|].
  destruct (insufficient_improvement _ _ _ _); [destruct (counter_reached _ _)|];
    reflexivity.
Qed.

Lemma bt_body_counts cfg F it st k :
  snd (BT.iteration_body cfg F it st k) = evaluating_gradient k \/
  snd (BT.iteration_body cfg F it st k) = searching (evaluating_gradient k).
Proof.
  rewrite bt_body_eq. cbn zeta. destruct (small_gradient _ _ _ _); [auto|].
  destruct (insufficient_improvement _ _ _ _); [destruct (counter_reached _ _)|];
    auto.
Qed.

Lemma cg_body_counts cfg F it st k :
  snd (CG.iteration_body cfg F it st k) = evaluating_gradient (searching k).
Proof.
  rewrite cg_body_eq. cbn zeta.
  destruct (insufficient_improvement _ _ _ _); [destruct (counter_reached _ _)|];
    reflexivity.
Qed.

Lemma optimize_counts {St} (run : M (stop_reason * St)) (cur : St -> ValueAndPoint) k :
  snd ((r ← run; mret (cur (snd r))) k) = snd (run k).
Proof. rewrite optimize_of_run. destruct (run k) as [[r|w] k']; reflexivity. Qed.

Ltac count_loop c d :=
  match goal with
  | |- context [for_loop ?body ?r ?i ?s ?k] =>
      let H := fresh "H" in
      assert (H : (c (snd (for_loop body r i s k)) <= c k + r * d)%nat);
      [apply (for_loop_counts body c d); intros | cbn in H; lia]
  end.

Lemma gd_counts parameters F start :
  let k := snd (run_M (GD.Optimize parameters F start)) in
  let max_steps := GD.max_steps (GD.read_parameters parameters) in
  (iterations k <= max_steps)%nat /\ (gradient_evals k <= max_steps)%nat /\
  (selections k <= max_steps)%nat /\ line_searches k = 0%nat.
Proof.
  cbn zeta. unfold run_M, GD.Optimize. rewrite optimize_counts, gd_run_eq.
  repeat split.
  - count_loop iterations 1%nat. rewrite gd_body_counts. cbn. lia.
  - count_loop gradient_evals 1%nat. rewrite gd_body_counts. cbn. lia.
  - count_loop selections 1%nat. rewrite gd_body_counts. cbn. lia.
  - apply Nat.le_0_r. count_loop line_searches 0%nat. rewrite gd_body_counts. cbn. lia.
Qed.

Lemma bt_counts parameters F start :
  let k := snd (run_M (BT.Optimize parameters F start)) in
  let max_steps := LS.max_steps (LS.read_parameters parameters) in
  (iterations k <= max_steps)%nat /\ (gradient_evals k <= max_steps)%nat /\
  (line_searches k <= max_steps)%nat /\ selections k = 0%nat.
Proof.
  cbn zeta. unfold run_M, BT.Optimize. rewrite optimize_counts. unfold BT.run.
  repeat split.
  - count_loop iterations 1%nat.
    destruct (bt_body_counts (LS.read_parameters parameters) F i s (entering k))
      as [-> | ->]; cbn; lia.
  - count_loop gradient_evals 1%nat.
    destruct (bt_body_counts (LS.read_parameters parameters) F i s (entering k))
      as [-> | ->]; cbn; lia.
  - count_loop line_searches 1%nat.
    destruct (bt_body_counts (LS.read_parameters parameters) F i s (entering k))
      as [-> | ->]; cbn; lia.
  - apply Nat.le_0_r. count_loop selections 0%nat.
    destruct (bt_body_counts (LS.read_parameters parameters) F i s (entering k))
      as [-> | ->]; cbn; lia.
Qed.

Lemma cg_counts parameters F start :
  let k := snd (run_M (CG.Optimize parameters F start)) in
  let max_steps := LS.max_steps (LS.read_parameters parameters) in
  (iterations k <= max_steps)%nat /\ (gradient_evals k <= 1 + max_steps)%nat /\
  (line_searches k <= max_steps)%nat /\ selections k = 0%nat.
Proof.
  cbn zeta. unfold run_M, CG.Optimize. rewrite optimize_counts, cg_run_eq.
  repeat split.
  - count_loop iterations 1%nat. rewrite cg_body_counts. cbn. lia.
  - count_loop gradient_evals 1%nat. rewrite cg_body_counts. cbn. lia.
  - count_loop line_searches 1%nat. rewrite cg_body_counts. cbn. lia.
  - apply Nat.le_0_r. count_loop selections 0%nat. rewrite cg_body_counts. cbn. lia.
Qed.

(** C5, as amended.  A call of [Optimize] executes at most [max_steps]
    iterations of its main loop.  With [max_steps = 1] plain gradient descent
    evaluates the gradient at most once and makes at most one pass over the
    trial steps; gradient descent with backtracking evaluates the gradient at
    most once and calls the line search at most once; conjugate gradient calls
    the line search at most once and evaluates the gradient at most twice,
    once before the loop and once in the iteration.  (Gradient evaluations
    made inside [Backtracking] belong to the line search and are not counted
    apart.) *)
Theorem C5_max_steps_bounds_the_work parameters F start :
  let gd := snd (run_M (GD.Optimize parameters F start)) in
  let bt := snd (run_M (BT.Optimize parameters F start)) in
  let cg := snd (run_M (CG.Optimize parameters F start)) in
  ((iterations gd <= GD.max_steps (GD.read_parameters parameters))%nat /\
   (iterations bt <= LS.max_steps (LS.read_parameters parameters))%nat /\
   (iterations cg <= LS.max_steps (LS.read_parameters parameters))%nat) /\
  (GD.max_steps (GD.read_parameters parameters) = 1%nat ->
   (gradient_evals gd <= 1)%nat /\ (selections gd <= 1)%nat) /\
  (LS.max_steps (LS.read_parameters parameters) = 1%nat ->
   (gradient_evals bt <= 1)%nat /\ (line_searches bt <= 1)%nat /\
   (gradient_evals cg <= 2)%nat /\ (line_searches cg <= 1)%nat).
Proof.
  cbn zeta.
  pose proof (gd_counts parameters F start) as (G1 & G2 & G3 & _).
  pose proof (bt_counts parameters F start) as (B1 & B2 & B3 & _).
  pose proof (cg_counts parameters F start) as (C1 & C2 & C3 & _).
  cbn zeta in *. repeat split; try assumption; lia.
Qed.

Lemma C5_max_steps_bounds_the_work_witness :
  let parameters := Some (SetValue "max_steps" 1%nat no_parameters) in
  let F := quadratic_objective one in
  (GD.max_steps (GD.read_parameters parameters) = 1%nat /\
   LS.max_steps (LS.read_parameters parameters) = 1%nat) /\
  ((gradient_evals (snd (run_M (GD.Optimize parameters F [d10]))) <= 1)%nat /\
   (selections (snd (run_M (GD.Optimize parameters F [d10]))) <= 1)%nat) /\
  (gradient_evals (snd (run_M (BT.Optimize parameters F [d10]))) <= 1)%nat /\
  (line_searches (snd (run_M (BT.Optimize parameters F [d10]))) <= 1)%nat /\
  (gradient_evals (snd (run_M (CG.Optimize parameters F [d10]))) <= 2)%nat /\
  (line_searches (snd (run_M (CG.Optimize parameters F [d10]))) <= 1)%nat.
Proof.
  split; [split; vm_compute; reflexivity|].
  destruct (C5_max_steps_bounds_the_work
              (Some (SetValue "max_steps" 1%nat no_parameters))
              (quadratic_objective one) [d10]) as (_ & Hgd & Hls).
  split; [apply Hgd | apply Hls]; vm_compute; reflexivity.
Defined.

(** C5 as stated fails for conjugate gradient: with [max_steps = 1] it
    evaluates the gradient twice, at the starting point before the loop and at
    [next.point] in the one iteration. *)
Lemma C5_counterexample :
  let parameters := Some (SetValue "max_steps" 1%nat no_parameters) in
  let k := snd (run_M (CG.Optimize parameters (quadratic_objective one) [d10])) in
  LS.max_steps (LS.read_parameters parameters) = 1%nat /\
  iterations k = 1%nat /\ line_searches k = 1%nat /\ gradient_evals k = 2%nat.
Proof. vm_compute. repeat split. Qed.

(** ** The gradient-norm early stop (C6) *)

(** C6, as amended.  Let [min_steps = 0] and [grad_eps = 1e10], and let the
    loop run at all ([max_steps >= 1]).  If the rooted sum of squares of the
    gradient at the starting point is below [1e10], gradient descent with
    backtracking leaves the loop in its first iteration through the
    gradient-norm check, before any line search, and returns the starting
    point.  If the rooted sum of squares of the direction computed in the
    first iteration is below [1e10], conjugate gradient executes exactly one
    iteration: it leaves the loop at its end through the gradient-norm check
    with [current = next], unless the no-improvement counter has already left
    it in that iteration. *)
Theorem C6_early_stop_on_first_iteration cfg F start k :
  LS.min_steps cfg = 0%nat ->
  LS.grad_eps cfg = d1e10 ->
  (1 <= LS.max_steps cfg)%nat ->
  ((Double.sqrt (L2Norm (gi F start)) <? d1e10)%D = true ->
   BT.run cfg F start k =
     (Returned (SmallGradient, BT.initial F start), evaluating_gradient (entering k))) /\
  (let st0 := CG.initial F start in
   let next := CG.next_of cfg F st0 in
   let s' := CG.next_direction st0 (gi F (point next)) in
   (Double.sqrt (L2Norm s') <? d1e10)%D = true ->
   exists why st k',
     CG.run cfg F start k = (Returned (why, st), k') /\
     iterations k' = S (iterations k) /\
     if insufficient_improvement (LS.min_relative_per_step_improvement cfg)
          (LS.min_absolute_per_step_improvement cfg) next (CG.current st0)
        && counter_reached 1 (LS.no_improvement_steps_to_terminate cfg)
     then why = NoImprovement /\ CG.current st = CG.current st0
     else why = SmallGradient /\ CG.current st = next).
Proof.
  intros Hmin Heps Hmax. split.
  - intros Hnorm. unfold BT.run.
    destruct (LS.max_steps cfg) as [|r]; [lia|].
    rewrite for_loop_S, bt_body_eq. cbn zeta.
    unfold small_gradient. cbn [BT.initial BT.current point].
    rewrite Heps, Hnorm, Hmin. reflexivity.
  - cbn zeta. intros Hnorm. rewrite cg_run_eq.
    destruct (LS.max_steps cfg) as [|r]; [lia|].
    rewrite for_loop_S, cg_body_eq. cbn zeta. unfold CG.adopt, small_gradient.
    rewrite Heps, Hnorm, Hmin. cbn [Nat.leb andb].
    change (CG.no_improvement_steps (CG.initial F start) + 1) with 1.
    destruct (insufficient_improvement _ _ _ _); cbn [andb].
    + destruct (counter_reached _ _); do 3 eexists; (split; [reflexivity|]);
        split; try reflexivity; split; reflexivity.
    + do 3 eexists. split; [reflexivity|]. split; [reflexivity|]. split; reflexivity.
Qed.

Lemma C6_early_stop_on_first_iteration_witness :
  let parameters :=
    Some (SetValue "grad_eps" d1e10 (SetValue "min_steps" 0%nat no_parameters)) in
  let cfg := LS.read_parameters parameters in
  let F := quadratic_objective one in
  let s' := CG.next_direction (CG.initial F [d10])
              (gi F (point (CG.next_of cfg F (CG.initial F [d10])))) in
  (LS.min_steps cfg = 0%nat /\ LS.grad_eps cfg = d1e10 /\
   (1 <= LS.max_steps cfg)%nat /\
   (Double.sqrt (L2Norm (gi F [d10])) <? d1e10)%D = true /\
   (Double.sqrt (L2Norm s') <? d1e10)%D = true) /\
  BT.run cfg F [d10] no_counts =
    (Returned (SmallGradient, BT.initial F [d10]),
     evaluating_gradient (entering no_counts)) /\
  exists st k',
    CG.run cfg F [d10] no_counts = (Returned (SmallGradient, st), k') /\
    iterations k' = 1%nat /\
    CG.current st = CG.next_of cfg F (CG.initial F [d10]).
Proof.
  split.
  - split; [reflexivity|]. split; [reflexivity|]. split; [vm_compute; lia|].
    split; vm_compute; reflexivity.
  - assert (Hmax : (1 <= LS.max_steps
                           (LS.read_parameters
                              (Some (SetValue "grad_eps" d1e10
                                       (SetValue "min_steps" 0%nat no_parameters)))))%nat)
      by (vm_compute; lia).
    assert (Hmin : LS.min_steps
                     (LS.read_parameters
                        (Some (SetValue "grad_eps" d1e10
                                 (SetValue "min_steps" 0%nat no_parameters)))) = 0%nat)
      by (vm_compute; reflexivity).
    assert (Heps : LS.grad_eps
                     (LS.read_parameters
                        (Some (SetValue "grad_eps" d1e10
                                 (SetValue "min_steps" 0%nat no_parameters)))) = d1e10)
      by (vm_compute; reflexivity).
    destruct (C6_early_stop_on_first_iteration
                (LS.read_parameters
                   (Some (SetValue "grad_eps" d1e10
                            (SetValue "min_steps" 0%nat no_parameters))))
                (quadratic_objective one) [d10] no_counts Hmin Heps Hmax)
      as [Hbt Hcg].
    split; [apply Hbt; vm_compute; reflexivity|].
    cbn zeta in Hcg.
    destruct Hcg as (why & st & k' & Hrun & Hit & Hwhy); [vm_compute; reflexivity|].
    assert (Htest :
      insufficient_improvement
        (LS.min_relative_per_step_improvement
           (LS.read_parameters
              (Some (SetValue "grad_eps" d1e10 (SetValue "min_steps" 0%nat no_parameters)))))
        (LS.min_absolute_per_step_improvement
           (LS.read_parameters
              (Some (SetValue "grad_eps" d1e10 (SetValue "min_steps" 0%nat no_parameters)))))
        (CG.next_of
           (LS.read_parameters
              (Some (SetValue "grad_eps" d1e10 (SetValue "min_steps" 0%nat no_parameters))))
           (quadratic_objective one) (CG.initial (quadratic_objective one) [d10]))
        (CG.current (CG.initial (quadratic_objective one) [d10]))
      && counter_reached 1
           (LS.no_improvement_steps_to_terminate
              (LS.read_parameters
                 (Some (SetValue "grad_eps" d1e10 (SetValue "min_steps" 0%nat no_parameters)))))
      = false) by (vm_compute; reflexivity).
    rewrite Htest in Hwhy. destruct Hwhy as [-> Hcur].
    exists st, k'. split; [exact Hrun|]. split; [exact Hit | exact Hcur].
Defined.

(** C6 as stated fails.  For [f(x) = 1e11 * x] the gradient is [1e11]
    everywhere, its rooted sum of squares is not below [1e10], and with
    [min_steps = 0] and [grad_eps = 1e10] both optimizers go through their
    first iteration and on: they stop in the third one, through the
    no-improvement counter. *)
Lemma C6_counterexample :
  let parameters :=
    Some (SetValue "grad_eps" d1e10 (SetValue "min_steps" 0%nat no_parameters)) in
  let cfg := LS.read_parameters parameters in
  let F := linear_objective d1e11 in
  (LS.min_steps cfg = 0%nat /\ LS.grad_eps cfg = d1e10) /\
  (exists st1 k1,
     BT.iteration_body cfg F 0 (BT.initial F [zero]) (entering no_counts)
       = (Returned (Continue st1), k1)) /\
  (exists st1 k1,
     CG.iteration_body cfg F 0 (CG.initial F [zero])
       (entering (evaluating_gradient no_counts))
       = (Returned (Continue st1), k1)) /\
  (exists st k, run_M (BT.run cfg F [zero]) = (Returned (NoImprovement, st), k) /\
                iterations k = 3%nat) /\
  (exists st k, run_M (CG.run cfg F [zero]) = (Returned (NoImprovement, st), k) /\
                iterations k = 3%nat).
Proof.
  split; [split; reflexivity|].
  split; [do 2 eexists; vm_compute; reflexivity|].
  split; [do 2 eexists; vm_compute; reflexivity|].
  split; do 2 eexists; split; vm_compute; reflexivity.
Qed.

(** ** The parameter store (C7) *)

(** C7.  [SetValue(name, v)] overwrites what was stored under [name]; a
    following [GetValue(name, d)] returns [v], converted to [double] when
    stored and cast to the requested type when read; writes under other names
    do not matter; and for a name that is not in the store (none in the empty
    store) [GetValue(name, d)] returns [d], whatever [d] is.  [GetValue] is a
    total function: it has no error result. *)
Theorem C7_parameter_store {T0 T U} `{Arithmetic T0} `{Arithmetic T} `{Arithmetic U}
    (name name' : string) (v0 : T0) (v : T) (d : U) (p : OptimizerParameters) :
  SetValue name v (SetValue name v0 p) = SetValue name v p /\
  GetValue name d (SetValue name v p) = static_cast (to_double v) /\
  (name' <> name -> GetValue name d (SetValue name' v p) = GetValue name d p) /\
  GetValue name d no_parameters = d /\
  (params_ p !! name = None -> GetValue name d p = d).
Proof.
  unfold SetValue, GetValue. cbn [params_]. repeat split.
  - rewrite insert_insert_eq. reflexivity.
  - rewrite lookup_insert_eq. reflexivity.
  - intros Hne. rewrite lookup_insert_ne by exact Hne. reflexivity.
  - intros ->. reflexivity.
Qed.

Lemma C7_parameter_store_witness :
  let p := SetValue "grad_eps" d1e10 no_parameters in
  ("grad_eps"%string <> "max_steps"%string /\
   params_ p !! "max_steps"%string = None) /\
  GetValue "max_steps" 5000%nat (SetValue "grad_eps" d1e10 p) = GetValue "max_steps" 5000%nat p /\
  GetValue "max_steps" 5000%nat p = 5000%nat.
Proof.
  split; [split; [discriminate | reflexivity]|].
  pose proof (C7_parameter_store (T0 := double) "max_steps" "grad_eps" d1e10 d1e10
                5000%nat (SetValue "grad_eps" d1e10 no_parameters))
    as (_ & _ & H3 & _ & H5).
  split; [apply H3; discriminate | apply H5; reflexivity].
Defined.

(** What is stored is a [double]: a step count written as an integer and read
    back as a floating-point number or as an integer. *)
Example parameter_coercions :
  let p := SetValue "max_steps" 7%nat no_parameters in
  GetValue "max_steps" zero p = of_int 7 /\
  GetValue "max_steps" 0%nat p = 7%nat /\
  GetValue "max_steps" 0%nat (SetValue "max_steps" d0_8 p) = 0%nat.
Proof. vm_compute. repeat split. Qed.

(** ** A constant objective (C8) *)

Lemma Backtracking_from_value fi p dir fx slope alpha beta budget : forall t,
  value (Backtracking_from fi p dir fx slope alpha beta budget t) =
  fi (point (Backtracking_from fi p dir fx slope alpha beta budget t)).
Proof.
  induction budget as [|b IH]; intros t; cbn [Backtracking_from];
    destruct (Double.leb _ _); try reflexivity. apply IH.
Qed.

(** [Backtracking] returns a point together with the value of [fi] there. *)
Lemma Backtracking_value fi gi p dir alpha beta max_steps :
  value (Backtracking fi gi p dir alpha beta max_steps) =
  fi (point (Backtracking fi gi p dir alpha beta max_steps)).
Proof. apply Backtracking_from_value. Qed.

Section ConstantObjective.

Variable F : Objective.
Variable c : double.
Hypothesis fi_constant : forall p, fi F p = c.
Hypothesis c_finite : IsNormal c = true.

Lemma constant_try_steps cur g :
  value cur = c -> GD.try_steps (fi F) cur g = (cur, true).
Proof.
  intros Hv. unfold GD.try_steps, GD.trial_steps. cbn [fold_left].
  unfold GD.try_step, GD.candidate. cbn [value fst].
  rewrite !fi_constant, c_finite. unfold std_min, vp_lt. cbn [value fst].
  rewrite Hv, ltb_irrefl. cbn [fst]. rewrite Hv, ltb_irrefl. cbn [fst].
  rewrite Hv, ltb_irrefl. reflexivity.
Qed.

Lemma constant_insufficient min_relative min_absolute a b :
  (zero <? min_absolute)%D = true -> value a = c -> value b = c ->
  insufficient_improvement min_relative min_absolute a b = true.
Proof.
  intros Hpos Ha Hb. unfold insufficient_improvement.
  rewrite Ha, Hb, (sub_diag c c_finite), Hpos. apply orb_true_r.
Qed.

(** The step at which the counter test fires bounds the iteration index. *)
Lemma counter_not_yet (i n : nat) N :
  (i < n)%nat -> counter_reached (Z.of_nat n) N = true ->
  counter_reached (Z.of_nat i + 1) N = false -> (S i < n)%nat.
Proof.
  intros Hlt Hn Hi. destruct (Nat.eq_dec (S i) n) as [<-|]; [|lia].
  rewrite Nat2Z.inj_succ in Hn. unfold Z.succ in Hn. congruence.
Qed.

Variable n : nat.

Lemma gd_constant_run cfg start k :
  (zero <? GD.min_absolute_per_step_improvement cfg)%D = true ->
  (1 <= n)%nat ->
  counter_reached (Z.of_nat n) (GD.no_improvement_steps_to_terminate cfg) = true ->
  exists why st k',
    GD.run cfg F start k = (Returned (why, st), k') /\
    (iterations k' <= iterations k + n)%nat /\
    ((n <= GD.max_steps cfg)%nat -> why = NoImprovement) /\
    0 <= GD.no_improvement_steps st <= Z.of_nat n.
Proof.
  intros Hpos Hn Hreach. rewrite gd_run_eq.
  destruct (for_loop_stops_within (GD.iteration_body cfg F)
              (fun i st => value (GD.current st) = c /\
                           GD.no_improvement_steps st = Z.of_nat i)
              (fun why => why = NoImprovement)
              (fun st => 0 <= GD.no_improvement_steps st <= Z.of_nat n) n) with
      (r := GD.max_steps cfg) (i := 0%nat) (s := GD.initial F start) (k := k)
    as (why & st & k' & Hrun & H1 & _ & H3 & H4).
  - intros i st k0 [Hv Hc] Hi. rewrite gd_body_eq. cbn zeta.
    rewrite (constant_try_steps _ _ Hv). cbn [fst snd negb].
    rewrite (constant_insufficient _ _ _ _ Hpos Hv Hv), Hc.
    destruct (counter_reached (Z.of_nat i + 1) _) eqn:E.
    + do 2 eexists. split; [reflexivity|]. split; [reflexivity|].
      split; [reflexivity|]. cbn [GD.no_improvement_steps]. lia.
    + do 2 eexists. split; [reflexivity|]. split; [reflexivity|].
      cbn [GD.current GD.no_improvement_steps]. repeat split; [exact Hv|lia|].
      exact (counter_not_yet _ _ _ Hi Hreach E).
  - intros i st [_ Hc] Hi. lia.
  - cbn. rewrite fi_constant. split; reflexivity.
  - lia.
  - exists why, st, k'. split; [exact Hrun|]. split; [lia|]. split; [|exact H4].
    intros. apply H3. lia.
Qed.

Lemma bt_constant_run cfg start k :
  (zero <? LS.min_absolute_per_step_improvement cfg)%D = true ->
  (1 <= n)%nat ->
  counter_reached (Z.of_nat n) (LS.no_improvement_steps_to_terminate cfg) = true ->
  exists why st k',
    BT.run cfg F start k = (Returned (why, st), k') /\
    (iterations k' <= iterations k + n)%nat /\
    ((n <= LS.max_steps cfg)%nat -> why <> MaxStepsReached) /\
    0 <= BT.no_improvement_steps st <= Z.of_nat n.
Proof.
  intros Hpos Hn Hreach. unfold BT.run.
  destruct (for_loop_stops_within (BT.iteration_body cfg F)
              (fun i st => value (BT.current st) = c /\
                           BT.no_improvement_steps st = Z.of_nat i)
              (fun why => why <> MaxStepsReached)
              (fun st => 0 <= BT.no_improvement_steps st <= Z.of_nat n) n) with
      (r := LS.max_steps cfg) (i := 0%nat) (s := BT.initial F start) (k := k)
    as (why & st & k' & Hrun & H1 & _ & H3 & H4).
  - intros i st k0 [Hv Hc] Hi. rewrite bt_body_eq. cbn zeta.
    destruct (small_gradient _ _ _ _).
    { do 2 eexists. split; [reflexivity|]. split; [reflexivity|].
      split; [discriminate|lia]. }
    assert (Hnext : value (BT.next_of cfg F (BT.current st)
                             (gi F (point (BT.current st)))) = c)
      by (unfold BT.next_of; rewrite Backtracking_value; apply fi_constant).
    rewrite (constant_insufficient _ _ _ _ Hpos Hnext Hv), Hc.
    destruct (counter_reached (Z.of_nat i + 1) _) eqn:E.
    + do 2 eexists. split; [reflexivity|]. split; [reflexivity|].
      split; [discriminate|]. cbn [BT.no_improvement_steps]. lia.
    + do 2 eexists. split; [reflexivity|]. split; [reflexivity|].
      cbn [BT.current BT.no_improvement_steps]. repeat split; [exact Hnext|lia|].
      exact (counter_not_yet _ _ _ Hi Hreach E).
  - intros i st [_ Hc] Hi. lia.
  - cbn. rewrite fi_constant. split; reflexivity.
  - lia.
  - exists why, st, k'. split; [exact Hrun|]. split; [lia|]. split; [|exact H4].
    intros. apply H3. lia.
Qed.

Lemma cg_constant_run cfg start k :
  (zero <? LS.min_absolute_per_step_improvement cfg)%D = true ->
  (1 <= n)%nat ->
  counter_reached (Z.of_nat n) (LS.no_improvement_steps_to_terminate cfg) = true ->
  exists why st k',
    CG.run cfg F start k = (Returned (why, st), k') /\
    (iterations k' <= iterations k + n)%nat /\
    ((n <= LS.max_steps cfg)%nat -> why <> MaxStepsReached) /\
    0 <= CG.no_improvement_steps st <= Z.of_nat n.
Proof.
  intros Hpos Hn Hreach. rewrite cg_run_eq.
  destruct (for_loop_stops_within (CG.iteration_body cfg F)
              (fun i st => value (CG.current st) = c /\
                           CG.no_improvement_steps st = Z.of_nat i)
              (fun why => why <> MaxStepsReached)
              (fun st => 0 <= CG.no_improvement_steps st <= Z.of_nat n) n) with
      (r := LS.max_steps cfg) (i := 0%nat) (s := CG.initial F start)
      (k := evaluating_gradient k)
    as (why & st & k' & Hrun & H1 & _ & H3 & H4).
  - intros i st k0 [Hv Hc] Hi. rewrite cg_body_eq. cbn zeta.
    assert (Hnext : value (CG.next_of cfg F st) = c)
      by (unfold CG.next_of; rewrite Backtracking_value; apply fi_constant).
    rewrite (constant_insufficient _ _ _ _ Hpos Hnext Hv), Hc.
    destruct (counter_reached (Z.of_nat i + 1) _) eqn:E.
    + do 2 eexists. split; [reflexivity|]. split; [reflexivity|].
      split; [discriminate|]. cbn [CG.no_improvement_steps]. lia.
    + unfold CG.adopt. destruct (small_gradient _ _ _ _).
      * do 2 eexists. split; [reflexivity|]. split; [reflexivity|].
        split; [discriminate|]. cbn [CG.no_improvement_steps]. lia.
      * do 2 eexists. split; [reflexivity|]. split; [reflexivity|].
        cbn [CG.current CG.no_improvement_steps]. repeat split; [exact Hnext|lia|].
        exact (counter_not_yet _ _ _ Hi Hreach E).
  - intros i st [_ Hc] Hi. lia.
  - cbn. rewrite fi_constant. split; reflexivity.
  - lia.
  - exists why, st, k'. split; [exact Hrun|]. split; [cbn in H1; lia|].
    split; [|exact H4]. intros. apply H3. lia.
Qed.

End ConstantObjective.

(** C8, as amended.  Take an objective that is constant, of finite value,
    with [min_absolute_per_step_improvement] above zero (as by default), and
    let [n >= 1] be a count for which the test
    [no_improvement_steps >= no_improvement_steps_to_terminate] holds (so
    [n = no_improvement_steps_to_terminate] when that is a positive whole
    number), at most [INT_MAX] since the counter is an [int].  Then each of
    the three optimizers executes at most [n] iterations, whatever
    [max_steps] is, the counter ending between 0 and [n], within its range;
    and when [max_steps >= n] the loop is left by a [break]: the one of the
    no-improvement counter in plain gradient descent, that one or the
    gradient-norm early stop in the other two. *)
Theorem C8_constant_objective_stops F c (n : nat) gd_cfg ls_cfg start :
  (forall p, fi F p = c) ->
  IsNormal c = true ->
  (zero <? GD.min_absolute_per_step_improvement gd_cfg)%D = true ->
  (zero <? LS.min_absolute_per_step_improvement ls_cfg)%D = true ->
  (1 <= n)%nat ->
  Z.of_nat n <= INT_MAX ->
  counter_reached (Z.of_nat n) (GD.no_improvement_steps_to_terminate gd_cfg) = true ->
  counter_reached (Z.of_nat n) (LS.no_improvement_steps_to_terminate ls_cfg) = true ->
  (exists why st k,
     run_M (GD.run gd_cfg F start) = (Returned (why, st), k) /\
     (iterations k <= n)%nat /\
     (0 <= GD.no_improvement_steps st <= Z.of_nat n /\
      GD.no_improvement_steps st <= INT_MAX) /\
     ((n <= GD.max_steps gd_cfg)%nat -> why = NoImprovement)) /\
  (exists why st k,
     run_M (BT.run ls_cfg F start) = (Returned (why, st), k) /\
     (iterations k <= n)%nat /\
     (0 <= BT.no_improvement_steps st <= Z.of_nat n /\
      BT.no_improvement_steps st <= INT_MAX) /\
     ((n <= LS.max_steps ls_cfg)%nat -> why = NoImprovement \/ why = SmallGradient)) /\
  (exists why st k,
     run_M (CG.run ls_cfg F start) = (Returned (why, st), k) /\
     (iterations k <= n)%nat /\
     (0 <= CG.no_improvement_steps st <= Z.of_nat n /\
      CG.no_improvement_steps st <= INT_MAX) /\
     ((n <= LS.max_steps ls_cfg)%nat -> why = NoImprovement \/ why = SmallGradient)).
Proof.
  intros Hfi Hc Hgd Hls Hn Hint Rgd Rls. unfold run_M. split; [|split].
  - destruct (gd_constant_run F c Hfi Hc n gd_cfg start no_counts Hgd Hn Rgd)
      as (why & st & k & Hrun & Hit & Hwhy & Hcount).
    exists why, st, k. split; [exact Hrun|]. split; [exact Hit|].
    split; [split; lia | exact Hwhy].
  - destruct (bt_constant_run F c Hfi Hc n ls_cfg start no_counts Hls Hn Rls)
      as (why & st & k & Hrun & Hit & Hwhy & Hcount).
    exists why, st, k. split; [exact Hrun|]. split; [exact Hit|].
    split; [split; lia|].
    intros H. specialize (Hwhy H). destruct why; auto. congruence.
  - destruct (cg_constant_run F c Hfi Hc n ls_cfg start no_counts Hls Hn Rls)
      as (why & st & k & Hrun & Hit & Hwhy & Hcount).
    exists why, st, k. split; [exact Hrun|]. split; [exact Hit|].
    split; [split; lia|].
    intros H. specialize (Hwhy H). destruct why; auto. congruence.
Qed.

Lemma C8_constant_objective_stops_witness :
  let F := constant_objective d10 in
  ((forall p, fi F p = d10) /\ IsNormal d10 = true /\
   (zero <? GD.min_absolute_per_step_improvement GD.defaults)%D = true /\
   (zero <? LS.min_absolute_per_step_improvement LS.defaults)%D = true /\
   (1 <= 2)%nat /\
   Z.of_nat 2 <= INT_MAX /\
   counter_reached (Z.of_nat 2) (GD.no_improvement_steps_to_terminate GD.defaults) = true /\
   counter_reached (Z.of_nat 2) (LS.no_improvement_steps_to_terminate LS.defaults) = true) /\
  exists why st k,
    run_M (GD.run GD.defaults F [one; two]) = (Returned (why, st), k) /\
    (iterations k <= 2)%nat /\
    (0 <= GD.no_improvement_steps st <= Z.of_nat 2 /\
     GD.no_improvement_steps st <= INT_MAX) /\
    ((2 <= GD.max_steps GD.defaults)%nat -> why = NoImprovement).
Proof.
  assert (Hint : Z.of_nat 2 <= INT_MAX) by (vm_compute; discriminate).
  split.
  - split; [intros p; reflexivity|]. split; [reflexivity|].
    split; [vm_compute; reflexivity|]. split; [vm_compute; reflexivity|].
    split; [lia|]. split; [exact Hint|]. split; vm_compute; reflexivity.
  - refine (proj1 (C8_constant_objective_stops (constant_objective d10) d10 2
                     GD.defaults LS.defaults [one; two]
                     (fun p => eq_refl) eq_refl _ _ _ Hint _ _)).
    + vm_compute. reflexivity.
    + vm_compute. reflexivity.
    + lia.
    + vm_compute. reflexivity.
    + vm_compute. reflexivity.
Defined.

(** C8 as stated fails on "via the counter".  With
    [no_improvement_steps_to_terminate = 10] and a constant objective,
    gradient descent with backtracking is stopped in its fourth iteration by
    the gradient-norm check ([iteration >= min_steps = 3]), the counter being
    at 3; and with [max_steps = 1] plain gradient descent stops because the
    loop condition fails, the counter being at 1 of 2. *)
Lemma C8_counterexample :
  let F := constant_objective d10 in
  (let parameters :=
     Some (SetValue "no_improvement_steps_to_terminate" 10%nat no_parameters) in
   exists st k,
     run_M (BT.run (LS.read_parameters parameters) F [one; two])
       = (Returned (SmallGradient, st), k) /\
     iterations k = 4%nat /\ BT.no_improvement_steps st = 3) /\
  (let parameters := Some (SetValue "max_steps" 1%nat no_parameters) in
   exists st k,
     run_M (GD.run (GD.read_parameters parameters) F [one; two])
       = (Returned (MaxStepsReached, st), k) /\
     iterations k = 1%nat /\ GD.no_improvement_steps st = 1).
Proof.
  split; do 2 eexists; (split; [vm_compute; reflexivity|]); split; reflexivity.
Qed.

(** ** No iteration at all (C10) *)

(** C10.  When the effective [max_steps] is 0 the three optimizers execute no
    iteration and return the pair of the objective value at the starting
    point and the starting point, without throwing, whatever that value is
    (conjugate gradient has then evaluated the gradient once, before the
    loop).  And whenever plain gradient descent throws, the loop has got to
    execute an iteration in which the three trial values are not finite: the
    starting value alone never makes it fail. *)
Theorem C10_zero_max_steps parameters F start :
  (GD.max_steps (GD.read_parameters parameters) = 0%nat ->
   run_M (GD.Optimize parameters F start) =
     (Returned (mkVP (fi F start) start), no_counts)) /\
  (LS.max_steps (LS.read_parameters parameters) = 0%nat ->
   run_M (BT.Optimize parameters F start) =
     (Returned (mkVP (fi F start) start), no_counts) /\
   run_M (CG.Optimize parameters F start) =
     (Returned (mkVP (fi F start) start), evaluating_gradient no_counts)) /\
  (forall what, fst (run_M (GD.Optimize parameters F start)) = Thrown what ->
   exists j st kj,
     enters (GD.iteration_body (GD.read_parameters parameters) F)
       (GD.max_steps (GD.read_parameters parameters)) 0 (GD.initial F start)
       no_counts j st kj /\
     (j < GD.max_steps (GD.read_parameters parameters))%nat /\
     all_trials_fail (fi F) (GD.current st) (gi F (point (GD.current st))) = true).
Proof.
  split; [|split].
  - intros H. unfold run_M, GD.Optimize. rewrite optimize_of_run, gd_run_eq, H.
    reflexivity.
  - intros H. unfold run_M, BT.Optimize, CG.Optimize.
    rewrite !optimize_of_run, cg_run_eq. unfold BT.run. rewrite H. split; reflexivity.
  - intros what H. unfold run_M in H.
    apply gd_optimize_thrown in H as (j & st & kj & He & Ha & _).
    exists j, st, kj. split; [exact He|]. split; [|exact Ha].
    clear Ha. induction He; [assumption|apply IHHe].
Qed.

Lemma C10_zero_max_steps_witness :
  let parameters := Some (SetValue "max_steps" 0%nat no_parameters) in
  let F := linear_objective one in
  let start := [S754_infinity false] in
  (GD.max_steps (GD.read_parameters parameters) = 0%nat /\
   LS.max_steps (LS.read_parameters parameters) = 0%nat /\
   IsNormal (fi F start) = false /\
   fst (run_M (GD.Optimize None infinite_gradient_objective [one]))
     = Thrown "!fncas::IsNormal(value)") /\
  run_M (GD.Optimize parameters F start) =
    (Returned (mkVP (S754_infinity false) start), no_counts) /\
  run_M (BT.Optimize parameters F start) =
    (Returned (mkVP (S754_infinity false) start), no_counts) /\
  run_M (CG.Optimize parameters F start) =
    (Returned (mkVP (S754_infinity false) start), evaluating_gradient no_counts) /\
  exists j st kj,
    enters (GD.iteration_body (GD.read_parameters None) infinite_gradient_objective)
      (GD.max_steps (GD.read_parameters None)) 0
      (GD.initial infinite_gradient_objective [one]) no_counts j st kj /\
    (j < GD.max_steps (GD.read_parameters None))%nat /\
    all_trials_fail (fi infinite_gradient_objective) (GD.current st)
      (gi infinite_gradient_objective (point (GD.current st))) = true.
Proof.
  split; [repeat split; vm_compute; reflexivity|].
  destruct (C10_zero_max_steps (Some (SetValue "max_steps" 0%nat no_parameters))
              (linear_objective one) [S754_infinity false]) as (Hgd & Hls & _).
  split; [exact (Hgd eq_refl)|].
  split; [exact (proj1 (Hls eq_refl))|].
  split; [exact (proj2 (Hls eq_refl))|].
  destruct (C10_zero_max_steps None infinite_gradient_objective [one])
    as (_ & _ & Hthrown).
  apply (Hthrown "!fncas::IsNormal(value)"). vm_compute. reflexivity.
Defined.

(* ================================================================== *)
(** * Further properties of the optimizers *)
(* ================================================================== *)

(** ** Loop invariants *)

(** An invariant kept by every continuing iteration holds when the loop
    condition fails; a run that is left by a [break] satisfies what the
    breaking iteration establishes. *)
Lemma for_loop_post {St} (body : nat -> St -> M (control St))
    (I : nat -> St -> Counters -> Prop)
    (Q : nat -> stop_reason -> St -> Counters -> Prop) :
  (forall i s k s' k', I i s k ->
     body i s (entering k) = (Returned (Continue s'), k') -> I (S i) s' k') ->
  (forall i s k why s' k', I i s k ->
     body i s (entering k) = (Returned (Break why s'), k') -> Q i why s' k') ->
  forall r i s k why s' k',
    I i s k -> for_loop body r i s k = (Returned (why, s'), k') ->
    (why = MaxStepsReached /\ I (i + r)%nat s' k') \/
    (exists j, (i <= j < i + r)%nat /\ Q j why s' k').
Proof.
  intros Hcont Hbreak. induction r as [|r IH]; intros i s k why s' k' Hi Hrun.
  - rewrite for_loop_O in Hrun. injection Hrun as <- <- <-.
    left. split; [reflexivity|]. rewrite Nat.add_0_r. exact Hi.
  - rewrite for_loop_S in Hrun.
    destruct (body i s (entering k)) as [[[s1|why1 s1]|w] k1] eqn:E.
    + destruct (IH (S i) s1 k1 why s' k' (Hcont _ _ _ _ _ Hi E) Hrun)
        as [[-> H]|(j & Hj & H)].
      * left. split; [reflexivity|]. replace (i + S r)%nat with (S i + r)%nat by lia.
        exact H.
      * right. exists j. split; [lia|exact H].
    + injection Hrun as <- <- <-. right. exists i. split; [lia|].
      exact (Hbreak _ _ _ _ _ _ Hi E).
    + discriminate.
Qed.

(** More of the order on [double]. *)
Section DoubleOrderMore.

Ltac cases2 a b :=
  unfold Double.ltb, Double.leb, SFltb, SFleb;
  destruct a as [[]|[]| |[] ? ?], b as [[]|[]| |[] ? ?];
  cbn; intros; try discriminate; try reflexivity;
  repeat match goal with
  | |- context [Pos.compare_cont Eq ?a ?b] =>
      change (Pos.compare_cont Eq a b) with (Pos.compare a b)
  | H : context [Pos.compare_cont Eq ?a ?b] |- _ =>
      change (Pos.compare_cont Eq a b) with (Pos.compare a b) in H
  end;
  repeat match goal with
  | H : context [Z.compare ?a ?b] |- _ => destruct (Z.compare_spec a b); cbn in H
  | |- context [Z.compare ?a ?b] => destruct (Z.compare_spec a b); cbn
  | H : context [Pos.compare ?a ?b] |- _ => destruct (Pos.compare_spec a b); cbn in H
  | |- context [Pos.compare ?a ?b] => destruct (Pos.compare_spec a b); cbn
  end;
  subst; try discriminate; try reflexivity; try lia.

Lemma leb_not_nan a b :
  (a <=? b)%D = true -> is_nan a = false /\ is_nan b = false.
Proof.
  unfold Double.leb, SFleb.
  destruct a as [[]|[]| |[] ? ?], b as [[]|[]| |[] ? ?]; cbn;
    intros; try discriminate; split; reflexivity.
Qed.

Lemma leb_not_gt a b : (a <=? b)%D = true -> (b <? a)%D = false.
Proof. cases2 a b. Qed.

Lemma leb_trans a b c :
  (a <=? b)%D = true -> (b <=? c)%D = true -> (a <=? c)%D = true.
Proof.
  intros Hab Hbc.
  destruct (leb_not_nan _ _ Hab) as [Ha _], (leb_not_nan _ _ Hbc) as [_ Hc].
  apply not_ltb_leb; [exact Hc|exact Ha|].
  destruct (c <? a)%D eqn:E; [|reflexivity].
  pose proof (ltb_leb_trans _ _ _ E Hab) as H.
  rewrite (leb_not_gt _ _ Hbc) in H. discriminate.
Qed.

Lemma ltb_nan_l a b : is_nan a = true -> (a <? b)%D = false.
Proof. destruct a; try discriminate. reflexivity. Qed.

Lemma ltb_nan_r a b : is_nan b = true -> (a <? b)%D = false.
Proof. destruct b; try discriminate. destruct a; reflexivity. Qed.

Lemma div_nan_r a b : is_nan b = true -> is_nan (a / b)%D = true.
Proof. destruct b; try discriminate. destruct a; reflexivity. Qed.

Lemma sub_nan_l a b : is_nan a = true -> is_nan (a - b)%D = true.
Proof. destruct a; try discriminate. reflexivity. Qed.

End DoubleOrderMore.

(** ** What plain gradient descent returns *)

Lemma optimize_returned {St} (run : M (stop_reason * St)) (cur : St -> ValueAndPoint)
    k r k' :
  (x ← run; mret (cur (snd x))) k = (Returned r, k') ->
  exists why st, run k = (Returned (why, st), k') /\ r = cur st.
Proof.
  rewrite optimize_of_run. destruct (run k) as [[[why st]|w] k1]; [|discriminate].
  intros [= <- <-]. eauto.
Qed.

Lemma try_steps_consistent fi cur g :
  value cur = fi (point cur) ->
  value (fst (GD.try_steps fi cur g)) = fi (point (fst (GD.try_steps fi cur g))).
Proof.
  intros Hcur. unfold GD.try_steps, GD.trial_steps. cbn [fold_left].
  unfold GD.try_step, std_min.
  repeat match goal with
         | |- context [if ?b then _ else _] => destruct b; cbn [fst]
         end;
    first [exact Hcur | reflexivity].
Qed.

(** A step of the loop of plain gradient descent, under an invariant of
    [current] that the best candidate inherits. *)
Lemma gd_run_invariant (P : ValueAndPoint -> Prop) cfg F start k why st k' :
  P (GD.current (GD.initial F start)) ->
  (forall cur, P cur -> P (fst (GD.try_steps (fi F) cur (gi F (point cur))))) ->
  GD.run cfg F start k = (Returned (why, st), k') ->
  P (GD.current st).
Proof.
  intros Hinit Hstep Hrun. rewrite gd_run_eq in Hrun.
  destruct (for_loop_post (GD.iteration_body cfg F)
              (fun _ s _ => P (GD.current s))
              (fun _ _ s _ => P (GD.current s))) with
      (r := GD.max_steps cfg) (i := 0%nat) (s := GD.initial F start) (k := k)
      (why := why) (s' := st) (k' := k') as [[_ H]|(j & _ & H)]; try assumption.
  - intros i s k0 s' k0' Hi Hbody. rewrite gd_body_eq in Hbody. cbn zeta in Hbody.
    destruct (negb _); [discriminate|].
    destruct (insufficient_improvement _ _ _ _);
      [destruct (counter_reached _ _)|]; try discriminate;
      injection Hbody as <- _; apply Hstep, Hi.
  - intros i s k0 why0 s' k0' Hi Hbody. rewrite gd_body_eq in Hbody. cbn zeta in Hbody.
    destruct (negb _); [discriminate|].
    destruct (insufficient_improvement _ _ _ _);
      [destruct (counter_reached _ _)|]; try discriminate.
    injection Hbody as _ <- _. exact Hi.
Qed.

(** The pair returned by [GradientDescentOptimizer::Optimize] is consistent:
    its [value] is the objective at its [point]. *)
Theorem gd_result_is_objective_at_point parameters F start k r k' :
  GD.Optimize parameters F start k = (Returned r, k') ->
  value r = fi F (point r).
Proof.
  intros H. apply optimize_returned in H as (why & st & Hrun & ->).
  apply (gd_run_invariant (fun c => value c = fi F (point c)) _ _ _ _ _ _ _
           eq_refl (fun cur => try_steps_consistent (fi F) cur _) Hrun).
Qed.

Lemma gd_result_is_objective_at_point_witness :
  exists r k',
    GD.Optimize None (quadratic_objective one) [d10] no_counts = (Returned r, k') /\
    value r = fi (quadratic_objective one) (point r).
Proof.
  assert (E : exists r k',
             GD.Optimize None (quadratic_objective one) [d10] no_counts = (Returned r, k'))
    by (do 2 eexists; vm_compute; reflexivity).
  destruct E as (r & k' & E). exists r, k'. split; [exact E|].
  exact (gd_result_is_objective_at_point None (quadratic_objective one) [d10]
           no_counts r k' E).
Defined.

(** Over a whole run plain gradient descent never ends above where it
    started: the returned value does not compare above the starting value, and
    is below or equal to it whenever the starting value is not a NaN. *)
Theorem gd_result_not_above_start parameters F start k r k' :
  GD.Optimize parameters F start k = (Returned r, k') ->
  (fi F start <? value r)%D = false /\
  (is_nan (fi F start) = false -> (value r <=? fi F start)%D = true).
Proof.
  intros H. apply optimize_returned in H as (why & st & Hrun & ->).
  apply (gd_run_invariant
           (fun c => (fi F start <? value c)%D = false /\
                     (is_nan (fi F start) = false -> (value c <=? fi F start)%D = true))
           _ _ _ _ _ _ _) with (3 := Hrun).
  - cbn. split; [apply ltb_irrefl | apply leb_refl].
  - intros cur [Hlt Hle].
    pose proof (best_not_above (fi F) cur (gi F (point cur))) as [Blt Ble].
    cbn zeta in Blt, Ble.
    destruct (is_nan (fi F start)) eqn:Hnan.
    + split; [apply ltb_nan_l, Hnan | discriminate].
    + specialize (Hle eq_refl).
      assert (Hbest : (value (fst (GD.try_steps (fi F) cur (gi F (point cur))))
                         <=? fi F start)%D = true).
      { eapply leb_trans; [|exact Hle]. apply Ble. apply (leb_not_nan _ _ Hle). }
      split; [apply leb_not_gt, Hbest | intros _; exact Hbest].
Qed.

Lemma gd_result_not_above_start_witness :
  exists r k',
    GD.Optimize None (quadratic_objective one) [d10] no_counts = (Returned r, k') /\
    (value r <=? fi (quadratic_objective one) [d10])%D = true.
Proof.
  assert (E : exists r k',
             GD.Optimize None (quadratic_objective one) [d10] no_counts = (Returned r, k'))
    by (do 2 eexists; vm_compute; reflexivity).
  destruct E as (r & k' & E). exists r, k'. split; [exact E|].
  apply (gd_result_not_above_start None (quadratic_objective one) [d10]
           no_counts r k' E).
  vm_compute. reflexivity.
Defined.

Lemma try_steps_nan fi cur g :
  is_nan (value cur) = true -> fst (GD.try_steps fi cur g) = cur.
Proof.
  intros Hnan. unfold GD.try_steps, GD.trial_steps. cbn [fold_left].
  unfold GD.try_step, std_min, vp_lt.
  repeat match goal with
         | |- context [if IsNormal ?v then _ else _] =>
             destruct (IsNormal v); cbn [fst]; rewrite ?(ltb_nan_r _ _ Hnan)
         end;
    reflexivity.
Qed.

Lemma insufficient_nan min_relative min_absolute candidate cur :
  is_nan (value cur) = true ->
  insufficient_improvement min_relative min_absolute candidate cur = false.
Proof.
  intros Hnan. unfold insufficient_improvement.
  rewrite (ltb_nan_r _ _ (div_nan_r (value candidate) _ Hnan)).
  rewrite (ltb_nan_l _ _ (sub_nan_l _ (value candidate) Hnan)). reflexivity.
Qed.

(** A NaN starting value is never left.  No candidate compares below a NaN
    and the improvement test never counts a NaN as insufficient: unless it
    throws, plain gradient descent executes all [max_steps] iterations and
    returns the starting pair. *)
Theorem gd_nan_start_uses_all_steps cfg F start k why st k' :
  is_nan (fi F start) = true ->
  GD.run cfg F start k = (Returned (why, st), k') ->
  why = MaxStepsReached /\ st = GD.initial F start /\
  iterations k' = (iterations k + GD.max_steps cfg)%nat.
Proof.
  intros Hnan Hrun. rewrite gd_run_eq in Hrun.
  destruct (for_loop_post (GD.iteration_body cfg F)
              (fun i s k0 => s = GD.initial F start /\
                             iterations k0 = (iterations k + i)%nat)
              (fun _ _ _ _ => False)) with
      (r := GD.max_steps cfg) (i := 0%nat) (s := GD.initial F start) (k := k)
      (why := why) (s' := st) (k' := k') as [(-> & -> & Hk)|(j & _ & [])];
    try assumption.
  - intros i s k0 s' k0' [-> Hk] Hbody. rewrite gd_body_eq in Hbody. cbn zeta in Hbody.
    cbn [GD.initial GD.current GD.no_improvement_steps point] in Hbody.
    rewrite insufficient_nan in Hbody by exact Hnan.
    destruct (negb _); [discriminate|].
    injection Hbody as <- <-. split.
    + unfold GD.initial. f_equal.
      apply (try_steps_nan (fi F) (mkVP (fi F start) start) _ Hnan).
    + cbn. lia.
  - intros i s k0 why0 s' k0' [-> Hk] Hbody. rewrite gd_body_eq in Hbody.
    cbn zeta in Hbody.
    cbn [GD.initial GD.current GD.no_improvement_steps point] in Hbody.
    rewrite insufficient_nan in Hbody by exact Hnan.
    destruct (negb _); discriminate.
  - split; [reflexivity|lia].
  - split; [reflexivity|]. split; [reflexivity|]. cbn in Hk. lia.
Qed.

Lemma gd_nan_start_uses_all_steps_witness :
  let cfg := GD.read_parameters (Some (SetValue "max_steps" 3%nat no_parameters)) in
  is_nan (fi nan_at_zero_objective [zero]) = true /\
  exists why st k',
    GD.run cfg nan_at_zero_objective [zero] no_counts = (Returned (why, st), k') /\
    why = MaxStepsReached /\ st = GD.initial nan_at_zero_objective [zero] /\
    iterations k' = 3%nat.
Proof.
  split; [vm_compute; reflexivity|].
  assert (E : exists why st k',
             GD.run (GD.read_parameters (Some (SetValue "max_steps" 3%nat no_parameters)))
               nan_at_zero_objective [zero] no_counts = (Returned (why, st), k'))
    by (do 3 eexists; vm_compute; reflexivity).
  destruct E as (why & st & k' & E). exists why, st, k'. split; [exact E|].
  assert (Hnan : is_nan (fi nan_at_zero_objective [zero]) = true)
    by (vm_compute; reflexivity).
  exact (gd_nan_start_uses_all_steps _ _ _ _ _ _ _ Hnan E).
Defined.

(** ** Which parameters matter *)

Lemma for_loop_same_body {St} (body body' : nat -> St -> M (control St)) :
  (forall i s k, body i s k = body' i s k) ->
  forall r i s k, for_loop body r i s k = for_loop body' r i s k.
Proof.
  intros Hb. induction r as [|r IH]; intros i s k; [reflexivity|].
  rewrite !for_loop_S, Hb.
  destruct (body' i s (entering k)) as [[[s1|why s1]|w] k1]; try reflexivity. apply IH.
Qed.

Lemma GetValue_other {T U} `{Arithmetic T} `{Arithmetic U}
    (name name' : string) (v : T) (d : U) p :
  name' <> name -> GetValue name d (SetValue name' v p) = GetValue name d p.
Proof.
  intros Hne. unfold GetValue, SetValue. cbn [params_].
  rewrite lookup_insert_ne by exact Hne. reflexivity.
Qed.

(** The run of plain gradient descent reads four fields of its
    configuration; [step_factor] is not one of them. *)
Lemma gd_run_config cfg cfg' F start k :
  GD.max_steps cfg = GD.max_steps cfg' ->
  GD.min_absolute_per_step_improvement cfg = GD.min_absolute_per_step_improvement cfg' ->
  GD.min_relative_per_step_improvement cfg = GD.min_relative_per_step_improvement cfg' ->
  GD.no_improvement_steps_to_terminate cfg = GD.no_improvement_steps_to_terminate cfg' ->
  GD.run cfg F start k = GD.run cfg' F start k.
Proof.
  intros Hmax Habs Hrel Hn. rewrite !gd_run_eq, Hmax. apply for_loop_same_body.
  intros i s k0. rewrite !gd_body_eq. cbn zeta. rewrite Habs, Hrel, Hn. reflexivity.
Qed.

(** A parameter stored under a name that an optimizer does not use changes
    nothing in what [Optimize] does.  Plain gradient descent uses four names:
    it reads [step_factor] as well but never uses the value.  The two
    optimizers built on [Backtracking] use their nine names.  A store without
    any parameter is as good as no store. *)
Theorem unused_parameters_change_nothing {T} `{Arithmetic T}
    (name : string) (v : T) p F start k :
  (Forall (fun used => name <> used)
     ["max_steps"; "min_relative_per_step_improvement";
      "min_absolute_per_step_improvement"; "no_improvement_steps_to_terminate"]%string ->
   GD.Optimize (Some (SetValue name v p)) F start k = GD.Optimize (Some p) F start k) /\
  (Forall (fun used => name <> used)
     ["min_steps"; "max_steps"; "bt_alpha"; "bt_beta"; "bt_max_steps"; "grad_eps";
      "min_relative_per_step_improvement"; "min_absolute_per_step_improvement";
      "no_improvement_steps_to_terminate"]%string ->
   BT.Optimize (Some (SetValue name v p)) F start k = BT.Optimize (Some p) F start k /\
   CG.Optimize (Some (SetValue name v p)) F start k = CG.Optimize (Some p) F start k) /\
  GD.Optimize (Some no_parameters) F start k = GD.Optimize None F start k /\
  BT.Optimize (Some no_parameters) F start k = BT.Optimize None F start k /\
  CG.Optimize (Some no_parameters) F start k = CG.Optimize None F start k.
Proof.
  assert (Hgd : GD.read_parameters (Some no_parameters) = GD.read_parameters None)
    by reflexivity.
  assert (Hls : LS.read_parameters (Some no_parameters) = LS.read_parameters None)
    by reflexivity.
  split; [|split; [|split; [|split]]];
    [| |unfold GD.Optimize; rewrite Hgd; reflexivity
       |unfold BT.Optimize; rewrite Hls; reflexivity
       |unfold CG.Optimize; rewrite Hls; reflexivity].
  - intros Hnames.
    repeat match goal with
           | Hf : Forall _ (_ :: _) |- _ => inversion Hf; subst; clear Hf
           end.
    unfold GD.Optimize. rewrite !optimize_of_run.
    rewrite (gd_run_config (GD.read_parameters (Some (SetValue name v p)))
               (GD.read_parameters (Some p))); [reflexivity|..];
      cbn [GD.read_parameters GD.max_steps GD.min_absolute_per_step_improvement
             GD.min_relative_per_step_improvement GD.no_improvement_steps_to_terminate];
      apply GetValue_other; assumption.
  - intros Hnames.
    repeat match goal with
           | Hf : Forall _ (_ :: _) |- _ => inversion Hf; subst; clear Hf
           end.
    assert (Hcfg : LS.read_parameters (Some (SetValue name v p))
                   = LS.read_parameters (Some p)).
    { cbn [LS.read_parameters]. rewrite !GetValue_other by assumption. reflexivity. }
    unfold BT.Optimize, CG.Optimize. rewrite Hcfg. split; reflexivity.
Qed.

Lemma unused_parameters_change_nothing_witness :
  let F := quadratic_objective one in
  (Forall (fun used => "step_factor"%string <> used)
     ["max_steps"; "min_relative_per_step_improvement";
      "min_absolute_per_step_improvement"; "no_improvement_steps_to_terminate"]%string /\
   Forall (fun used => "step_factor"%string <> used)
     ["min_steps"; "max_steps"; "bt_alpha"; "bt_beta"; "bt_max_steps"; "grad_eps";
      "min_relative_per_step_improvement"; "min_absolute_per_step_improvement";
      "no_improvement_steps_to_terminate"]%string) /\
  GD.Optimize (Some (SetValue "step_factor" d10 no_parameters)) F [d10] no_counts
    = GD.Optimize (Some no_parameters) F [d10] no_counts /\
  BT.Optimize (Some (SetValue "step_factor" d10 no_parameters)) F [d10] no_counts
    = BT.Optimize (Some no_parameters) F [d10] no_counts.
Proof.
  assert (H4 : Forall (fun used => "step_factor"%string <> used)
     ["max_steps"; "min_relative_per_step_improvement";
      "min_absolute_per_step_improvement"; "no_improvement_steps_to_terminate"]%string)
    by (repeat constructor; discriminate).
  assert (H9 : Forall (fun used => "step_factor"%string <> used)
     ["min_steps"; "max_steps"; "bt_alpha"; "bt_beta"; "bt_max_steps"; "grad_eps";
      "min_relative_per_step_improvement"; "min_absolute_per_step_improvement";
      "no_improvement_steps_to_terminate"]%string)
    by (repeat constructor; discriminate).
  split; [split; assumption|].
  destruct (unused_parameters_change_nothing "step_factor" d10 no_parameters
              (quadratic_objective one) [d10] no_counts) as (Hgd & Hls & _).
  split; [exact (Hgd H4) | exact (proj1 (Hls H9))].
Defined.

(** ** When the loops may be left *)

Lemma bt_stop cfg F start k why st k' :
  BT.run cfg F start k = (Returned (why, st), k') ->
  (why = MaxStepsReached /\ iterations k' = (iterations k + LS.max_steps cfg)%nat) \/
  (exists j, iterations k' = (iterations k + j + 1)%nat /\
             (j < LS.max_steps cfg)%nat /\
             (0 <= BT.no_improvement_steps st <= Z.of_nat j + 1) /\
             match why with
             | SmallGradient => (LS.min_steps cfg <= j)%nat
             | NoImprovement =>
                 counter_reached (BT.no_improvement_steps st)
                   (LS.no_improvement_steps_to_terminate cfg) = true /\
                 1 <= BT.no_improvement_steps st
             | MaxStepsReached => False
             end).
Proof.
  intros Hrun. unfold BT.run in Hrun.
  destruct (for_loop_post (BT.iteration_body cfg F)
              (fun i s k0 => iterations k0 = (iterations k + i)%nat /\
                             0 <= BT.no_improvement_steps s <= Z.of_nat i)
              (fun j why s k0 =>
                 iterations k0 = (iterations k + j + 1)%nat /\
                 (0 <= BT.no_improvement_steps s <= Z.of_nat j + 1) /\
                 match why with
                 | SmallGradient => (LS.min_steps cfg <= j)%nat
                 | NoImprovement =>
                     counter_reached (BT.no_improvement_steps s)
                       (LS.no_improvement_steps_to_terminate cfg) = true /\
                     1 <= BT.no_improvement_steps s
                 | MaxStepsReached => False
                 end)) with
      (r := LS.max_steps cfg) (i := 0%nat) (s := BT.initial F start) (k := k)
      (why := why) (s' := st) (k' := k') as [[-> [Hk _]]|(j & Hj & Hk & Hc & Hq)];
    try assumption.
  - intros i s k0 s' k0' [Hk Hc] Hbody. rewrite bt_body_eq in Hbody. cbn zeta in Hbody.
    destruct (small_gradient _ _ _ _); [discriminate|].
    destruct (insufficient_improvement _ _ _ _);
      [destruct (counter_reached _ _)|]; try discriminate;
      injection Hbody as <- <-; cbn; split; lia.
  - intros i s k0 why0 s' k0' [Hk Hc] Hbody. rewrite bt_body_eq in Hbody.
    cbn zeta in Hbody.
    destruct (small_gradient _ _ _ _) eqn:Hsg.
    + injection Hbody as <- <- <-. cbn. split; [lia|]. split; [lia|].
      unfold small_gradient in Hsg. apply andb_true_iff in Hsg as [_ Hsg].
      apply Nat.leb_le, Hsg.
    + destruct (insufficient_improvement _ _ _ _);
        [destruct (counter_reached _ _) eqn:Hr|]; try discriminate.
      injection Hbody as <- <- <-. cbn. split; [lia|]. split; [lia|].
      split; [exact Hr|lia].
  - cbn. split; lia.
  - left. split; [reflexivity|lia].
  - right. exists j. split; [lia|]. split; [lia|]. split; assumption.
Qed.

Lemma cg_stop cfg F start k why st k' :
  CG.run cfg F start k = (Returned (why, st), k') ->
  (why = MaxStepsReached /\ iterations k' = (iterations k + LS.max_steps cfg)%nat) \/
  (exists j, iterations k' = (iterations k + j + 1)%nat /\
             (j < LS.max_steps cfg)%nat /\
             (0 <= CG.no_improvement_steps st <= Z.of_nat j + 1) /\
             match why with
             | SmallGradient => (LS.min_steps cfg <= j)%nat
             | NoImprovement =>
                 counter_reached (CG.no_improvement_steps st)
                   (LS.no_improvement_steps_to_terminate cfg) = true /\
                 1 <= CG.no_improvement_steps st
             | MaxStepsReached => False
             end).
Proof.
  intros Hrun. rewrite cg_run_eq in Hrun.
  destruct (for_loop_post (CG.iteration_body cfg F)
              (fun i s k0 => iterations k0 = (iterations k + i)%nat /\
                             0 <= CG.no_improvement_steps s <= Z.of_nat i)
              (fun j why s k0 =>
                 iterations k0 = (iterations k + j + 1)%nat /\
                 (0 <= CG.no_improvement_steps s <= Z.of_nat j + 1) /\
                 match why with
                 | SmallGradient => (LS.min_steps cfg <= j)%nat
                 | NoImprovement =>
                     counter_reached (CG.no_improvement_steps s)
                       (LS.no_improvement_steps_to_terminate cfg) = true /\
                     1 <= CG.no_improvement_steps s
                 | MaxStepsReached => False
                 end)) with
      (r := LS.max_steps cfg) (i := 0%nat) (s := CG.initial F start)
      (k := evaluating_gradient k)
      (why := why) (s' := st) (k' := k') as [[-> [Hk _]]|(j & Hj & Hk & Hc & Hq)];
    try assumption.
  - intros i s k0 s' k0' [Hk Hc] Hbody. rewrite cg_body_eq in Hbody. cbn zeta in Hbody.
    unfold CG.adopt in Hbody.
    destruct (insufficient_improvement _ _ _ _);
      [destruct (counter_reached _ _)|]; try discriminate;
      destruct (small_gradient _ _ _ _); try discriminate;
      injection Hbody as <- <-; cbn in *; split; lia.
  - intros i s k0 why0 s' k0' [Hk Hc] Hbody. rewrite cg_body_eq in Hbody.
    cbn zeta in Hbody. unfold CG.adopt in Hbody.
    destruct (insufficient_improvement _ _ _ _);
      [destruct (counter_reached _ _) eqn:Hr|].
    + injection Hbody as <- <- <-. cbn in *. split; [lia|]. split; [lia|].
      split; [exact Hr|lia].
    + destruct (small_gradient _ _ _ _) eqn:Hsg; [|discriminate].
      injection Hbody as <- <- <-. cbn in *. split; [lia|]. split; [lia|].
      unfold small_gradient in Hsg. apply andb_true_iff in Hsg as [_ Hsg].
      apply Nat.leb_le, Hsg.
    + destruct (small_gradient _ _ _ _) eqn:Hsg; [|discriminate].
      injection Hbody as <- <- <-. cbn in *. split; [lia|]. split; [lia|].
      unfold small_gradient in Hsg. apply andb_true_iff in Hsg as [_ Hsg].
      apply Nat.leb_le, Hsg.
  - cbn. split; lia.
  - left. split; [reflexivity|cbn in Hk; lia].
  - right. exists j. split; [cbn in Hk; lia|]. split; [lia|]. split; assumption.
Qed.

Lemma gd_stop cfg F start k why st k' :
  GD.run cfg F start k = (Returned (why, st), k') ->
  (why = MaxStepsReached /\ iterations k' = (iterations k + GD.max_steps cfg)%nat) \/
  (exists j, iterations k' = (iterations k + j + 1)%nat /\
             (j < GD.max_steps cfg)%nat /\
             (0 <= GD.no_improvement_steps st <= Z.of_nat j + 1) /\
             why = NoImprovement /\
             counter_reached (GD.no_improvement_steps st)
               (GD.no_improvement_steps_to_terminate cfg) = true /\
             1 <= GD.no_improvement_steps st).
Proof.
  intros Hrun. rewrite gd_run_eq in Hrun.
  destruct (for_loop_post (GD.iteration_body cfg F)
              (fun i s k0 => iterations k0 = (iterations k + i)%nat /\
                             0 <= GD.no_improvement_steps s <= Z.of_nat i)
              (fun j why s k0 =>
                 iterations k0 = (iterations k + j + 1)%nat /\
                 (0 <= GD.no_improvement_steps s <= Z.of_nat j + 1) /\
                 why = NoImprovement /\
                 counter_reached (GD.no_improvement_steps s)
                   (GD.no_improvement_steps_to_terminate cfg) = true /\
                 1 <= GD.no_improvement_steps s)) with
      (r := GD.max_steps cfg) (i := 0%nat) (s := GD.initial F start) (k := k)
      (why := why) (s' := st) (k' := k') as [[-> [Hk _]]|(j & Hj & Hk & Hc & Hq)];
    try assumption.
  - intros i s k0 s' k0' [Hk Hc] Hbody. rewrite gd_body_eq in Hbody. cbn zeta in Hbody.
    destruct (negb _); [discriminate|].
    destruct (insufficient_improvement _ _ _ _);
      [destruct (counter_reached _ _)|]; try discriminate;
      injection Hbody as <- <-; cbn; split; lia.
  - intros i s k0 why0 s' k0' [Hk Hc] Hbody. rewrite gd_body_eq in Hbody.
    cbn zeta in Hbody.
    destruct (negb _); [discriminate|].
    destruct (insufficient_improvement _ _ _ _);
      [destruct (counter_reached _ _) eqn:Hr|]; try discriminate.
    injection Hbody as <- <- <-. cbn. split; [lia|]. split; [lia|].
    split; [reflexivity|]. split; [exact Hr|lia].
  - cbn. split; lia.
  - left. split; [reflexivity|lia].
  - right. exists j. split; [lia|]. split; [lia|]. split; assumption.
Qed.

(** The gradient-norm early stop honours [min_steps]: a run of an optimizer
    built on [Backtracking] that is left through it has executed more than
    [min_steps] iterations.  Plain gradient descent has no such stop. *)
Theorem gradient_norm_stop_respects_min_steps F start k k' :
  (forall cfg st, BT.run cfg F start k = (Returned (SmallGradient, st), k') ->
                  (iterations k + LS.min_steps cfg < iterations k')%nat) /\
  (forall cfg st, CG.run cfg F start k = (Returned (SmallGradient, st), k') ->
                  (iterations k + LS.min_steps cfg < iterations k')%nat) /\
  (forall cfg st, GD.run cfg F start k <> (Returned (SmallGradient, st), k')).
Proof.
  split; [|split].
  - intros cfg st Hrun.
    destruct (bt_stop _ _ _ _ _ _ _ Hrun) as [[? _]|(j & Hk & _ & _ & Hq)];
      [discriminate|lia].
  - intros cfg st Hrun.
    destruct (cg_stop _ _ _ _ _ _ _ Hrun) as [[? _]|(j & Hk & _ & _ & Hq)];
      [discriminate|lia].
  - intros cfg st Hrun.
    destruct (gd_stop _ _ _ _ _ _ _ Hrun) as [[? _]|(j & _ & _ & _ & ? & _)];
      discriminate.
Qed.

Lemma gradient_norm_stop_respects_min_steps_witness :
  let cfg := LS.read_parameters
               (Some (SetValue "no_improvement_steps_to_terminate" 10%nat no_parameters)) in
  exists st k',
    BT.run cfg (constant_objective d10) [one; two] no_counts
      = (Returned (SmallGradient, st), k') /\
    (iterations no_counts + LS.min_steps cfg < iterations k')%nat.
Proof.
  assert (E : exists st k',
             BT.run (LS.read_parameters
                       (Some (SetValue "no_improvement_steps_to_terminate" 10%nat
                                no_parameters)))
               (constant_objective d10) [one; two] no_counts
             = (Returned (SmallGradient, st), k'))
    by (do 2 eexists; vm_compute; reflexivity).
  destruct E as (st & k' & E). exists st, k'. split; [exact E|].
  exact (proj1 (gradient_norm_stop_respects_min_steps (constant_objective d10)
                  [one; two] no_counts k') _ _ E).
Defined.

(** The no-improvement stop needs its count of iterations: if the test
    [no_improvement_steps >= no_improvement_steps_to_terminate] fails for
    every count from 1 up to [n - 1], a run that is left through the counter
    has executed at least [n] iterations.  With the default threshold 2 no
    optimizer stops for lack of improvement in its first iteration. *)
Theorem no_improvement_stop_needs_iterations (n : nat) F start k k' :
  (forall cfg st,
     (forall c, 1 <= c < Z.of_nat n ->
        counter_reached c (GD.no_improvement_steps_to_terminate cfg) = false) ->
     GD.run cfg F start k = (Returned (NoImprovement, st), k') ->
     (iterations k + n <= iterations k')%nat) /\
  (forall cfg st,
     (forall c, 1 <= c < Z.of_nat n ->
        counter_reached c (LS.no_improvement_steps_to_terminate cfg) = false) ->
     BT.run cfg F start k = (Returned (NoImprovement, st), k') ->
     (iterations k + n <= iterations k')%nat) /\
  (forall cfg st,
     (forall c, 1 <= c < Z.of_nat n ->
        counter_reached c (LS.no_improvement_steps_to_terminate cfg) = false) ->
     CG.run cfg F start k = (Returned (NoImprovement, st), k') ->
     (iterations k + n <= iterations k')%nat).
Proof.
  split; [|split]; intros cfg st Hnot Hrun.
  - destruct (gd_stop _ _ _ _ _ _ _ Hrun)
      as [[? _]|(j & Hk & _ & Hc & _ & Hr & H1)]; [discriminate|].
    destruct (Z_lt_le_dec (GD.no_improvement_steps st) (Z.of_nat n)) as [Hlt|Hge];
      [|lia].
    rewrite Hnot in Hr by lia. discriminate.
  - destruct (bt_stop _ _ _ _ _ _ _ Hrun)
      as [[? _]|(j & Hk & _ & Hc & Hr & H1)]; [discriminate|].
    destruct (Z_lt_le_dec (BT.no_improvement_steps st) (Z.of_nat n)) as [Hlt|Hge];
      [|lia].
    rewrite Hnot in Hr by lia. discriminate.
  - destruct (cg_stop _ _ _ _ _ _ _ Hrun)
      as [[? _]|(j & Hk & _ & Hc & Hr & H1)]; [discriminate|].
    destruct (Z_lt_le_dec (CG.no_improvement_steps st) (Z.of_nat n)) as [Hlt|Hge];
      [|lia].
    rewrite Hnot in Hr by lia. discriminate.
Qed.

Lemma no_improvement_stop_needs_iterations_witness :
  (forall c, 1 <= c < Z.of_nat 2 ->
     counter_reached c (GD.no_improvement_steps_to_terminate GD.defaults) = false) /\
  exists st k',
    GD.run GD.defaults (linear_objective one) [neg d10] no_counts
      = (Returned (NoImprovement, st), k') /\
    (iterations no_counts + 2 <= iterations k')%nat.
Proof.
  assert (Hnot : forall c, 1 <= c < Z.of_nat 2 ->
            counter_reached c (GD.no_improvement_steps_to_terminate GD.defaults) = false).
  { intros c Hc. assert (c = 1) as -> by lia. vm_compute. reflexivity. }
  split; [exact Hnot|].
  assert (E : exists st k',
             GD.run GD.defaults (linear_objective one) [neg d10] no_counts
             = (Returned (NoImprovement, st), k'))
    by (do 2 eexists; vm_compute; reflexivity).
  destruct E as (st & k' & E). exists st, k'. split; [exact E|].
  exact (proj1 (no_improvement_stop_needs_iterations 2 (linear_objective one)
                  [neg d10] no_counts k') _ _ Hnot E).
Defined.

(** ** Exact accounting *)



(* ================================================================== *)
(** * Integers through the parameter store *)
(* ================================================================== *)

Lemma digits2_pos_bounds m :
  2 ^ (Zpos (digits2_pos m) - 1) <= Zpos m < 2 ^ Zpos (digits2_pos m).
Proof.
  induction m as [m IH|m IH|]; cbn [digits2_pos].
  - rewrite Pos2Z.inj_succ. replace (Z.succ (Zpos (digits2_pos m)) - 1) with (Zpos (digits2_pos m) - 1 + 1) by lia.
    rewrite Z.pow_succ_r by lia. rewrite Z.pow_add_r by lia. change (2^1) with 2. lia.
  - rewrite Pos2Z.inj_succ. replace (Z.succ (Zpos (digits2_pos m)) - 1) with (Zpos (digits2_pos m) - 1 + 1) by lia.
    rewrite Z.pow_succ_r by lia. rewrite Z.pow_add_r by lia. change (2^1) with 2. lia.
  - cbn. lia.
Qed.

Lemma iter_xO_value m p : Zpos (Pos.iter xO m p) = Zpos m * 2 ^ Zpos p.
Proof.
  revert m. induction p as [|p IH] using Pos.peano_ind; intros m.
  - cbn. lia.
  - rewrite Pos.iter_succ, Pos2Z.inj_succ, Z.pow_succ_r by lia.
    rewrite Pos2Z.inj_xO, IH. lia.
Qed.

Lemma iter_xO_digits m p :
  digits2_pos (Pos.iter xO m p) = (digits2_pos m + p)%positive.
Proof.
  induction p as [|p IH] using Pos.peano_ind.
  - cbn. lia.
  - rewrite Pos.iter_succ. cbn [digits2_pos]. rewrite IH. lia.
Qed.

Lemma binary_round_aux_exact s m e :
  digits2_pos m = 53%positive -> -1074 <= e <= 971 ->
  binary_round_aux 53 1024 s (Zpos m) e loc_Exact = S754_finite s m e.
Proof.
  intros Hd He. unfold binary_round_aux, shr_fexp, fexp, emin.
  cbn [Zdigits2 shr_record_of_loc]. rewrite Hd.
  replace (Z.max (53 + e - 53) (3 - 1024 - 53) - e) with 0 by lia.
  cbn [shr shr_m loc_of_shr_record round_nearest_even Zdigits2 shr_record_of_loc].
  rewrite Hd.
  replace (Z.max (53 + e - 53) (3 - 1024 - 53) - e) with 0 by lia.
  cbn [shr shr_m].
  destruct (Z.leb_spec e (1024 - 53)); [reflexivity|lia].
Qed.

Lemma binary_round_small s m :
  Zpos m < 2 ^ 53 ->
  exists m' p, binary_round 53 1024 s m 0 = S754_finite s m' (- p) /\
               0 <= p /\ Zpos m' = Zpos m * 2 ^ p.
Proof.
  intros Hm. pose proof (digits2_pos_bounds m) as [Hlo Hhi].
  assert (Hd : Zpos (digits2_pos m) <= 53).
  { destruct (Z_le_gt_dec (Zpos (digits2_pos m)) 53) as [|Hgt]; [assumption|].
    assert (2 ^ 53 <= 2 ^ (Zpos (digits2_pos m) - 1)) by (apply Z.pow_le_mono_r; lia).
    lia. }
  unfold binary_round, shl_align, fexp, emin.
  replace (Z.max (Zpos (digits2_pos m) + 0 - 53) (3 - 1024 - 53) - 0)
    with (Zpos (digits2_pos m) - 53) by lia.
  replace (Z.max (Zpos (digits2_pos m) + 0 - 53) (3 - 1024 - 53))
    with (Zpos (digits2_pos m) - 53) by lia.
  destruct (Zpos (digits2_pos m) - 53) as [|q|q] eqn:Hq; try lia.
  - exists m, 0. change (- 0) with 0.
    rewrite (binary_round_aux_exact s m 0) by (lia || (apply Pos2Z.inj; lia)).
    split; [reflexivity|]. split; [lia|]. rewrite Z.pow_0_r. lia.
  - exists (Pos.iter xO m q), (Zpos q).
    rewrite (binary_round_aux_exact s (Pos.iter xO m q) (Zneg q)).
    + split; [reflexivity|]. split; [lia|]. apply iter_xO_value.
    + rewrite iter_xO_digits. apply Pos2Z.inj. rewrite Pos2Z.inj_add. lia.
    + lia.
Qed.

Lemma shiftl_back m p : 0 <= p -> Z.shiftl (m * 2 ^ p) (- p) = m.
Proof.
  intros Hp. rewrite Z.shiftl_opp_r, Z.shiftr_div_pow2 by lia.
  apply Z.div_mul. apply Z.pow_nonzero; lia.
Qed.

Lemma to_int_of_int z : - 2 ^ 53 < z < 2 ^ 53 -> to_int (of_int z) = z.
Proof.
  intros Hz. unfold of_int, binary_normalize, prec, emax.
  destruct z as [|m|m]; [reflexivity| |].
  - destruct (binary_round_small false m) as (m' & p & -> & Hp & Hm'); [lia|].
    unfold to_int, cond_Zopp. rewrite Hm'. apply shiftl_back, Hp.
  - destruct (binary_round_small true m) as (m' & p & -> & Hp & Hm'); [lia|].
    unfold to_int, cond_Zopp. rewrite Hm', shiftl_back by exact Hp. reflexivity.
Qed.

Lemma to_size_t_of_int (n : nat) :
  Z.of_nat n < 2 ^ 53 -> to_size_t (of_int (Z.of_nat n)) = n.
Proof.
  intros Hn. unfold of_int, binary_normalize, prec, emax.
  destruct (Z.of_nat n) as [|m|m] eqn:E; [cbn; lia| |lia].
  destruct (binary_round_small false m) as (m' & p & -> & Hp & Hm'); [lia|].
  unfold to_size_t. rewrite Hm', shiftl_back by exact Hp. lia.
Qed.

(** A whole number below [2^53] in absolute value survives the trip through
    the store, where it is kept as a [double]: written as a [size_t] or as an
    [int] and read back as the same type, it comes back unchanged. *)
Theorem integer_parameters_round_trip (name : string) (p : OptimizerParameters) :
  (forall n d : nat, Z.of_nat n < 2 ^ 53 -> GetValue name d (SetValue name n p) = n) /\
  (forall z d : Z, - 2 ^ 53 < z < 2 ^ 53 -> GetValue name d (SetValue name z p) = z).
Proof.
  split.
  - intros n d Hn. unfold GetValue, SetValue. cbn [params_].
    rewrite lookup_insert_eq. apply to_size_t_of_int, Hn.
  - intros z d Hz. unfold GetValue, SetValue. cbn [params_].
    rewrite lookup_insert_eq. apply to_int_of_int, Hz.
Qed.

Lemma integer_parameters_round_trip_witness :
  (Z.of_nat 5000 < 2 ^ 53 /\ - 2 ^ 53 < -7 < 2 ^ 53) /\
  GetValue "max_steps" 0%nat (SetValue "max_steps" 5000%nat no_parameters) = 5000%nat /\
  GetValue "offset" 0 (SetValue "offset" (-7) no_parameters) = -7.
Proof.
  assert (Hn : Z.of_nat 5000 < 2 ^ 53) by (vm_compute; reflexivity).
  assert (Hz : - 2 ^ 53 < -7 < 2 ^ 53) by (split; vm_compute; reflexivity).
  split; [split; assumption|].
  destruct (integer_parameters_round_trip "max_steps" no_parameters) as [H1 _].
  destruct (integer_parameters_round_trip "offset" no_parameters) as [_ H2].
  split; [exact (H1 5000%nat 0%nat Hn) | exact (H2 (-7) 0 Hz)].
Defined.

(* ================================================================== *)
(** * The clocks of [Bricks/time/chrono.h] *)
(* ================================================================== *)

(** ** The mock clock *)

Lemma Now_times_eq n : forall impl,
  MockTime.Now_times n impl =
  (map (fun k : nat =>
          if MockTime.mock_now_value impl <? MockTime.max_mock_now_value impl
          then Z.min (MockTime.mock_now_value impl + Z.of_nat k)
                     (MockTime.max_mock_now_value impl)
          else MockTime.mock_now_value impl)
       (seq 0 n),
   MockTime.mkImpl
     (if MockTime.mock_now_value impl <? MockTime.max_mock_now_value impl
      then Z.min (MockTime.mock_now_value impl + Z.of_nat n)
                 (MockTime.max_mock_now_value impl)
      else MockTime.mock_now_value impl)
     (MockTime.max_mock_now_value impl)).
Proof.
  induction n as [|n IH]; intros [v m]; cbn [MockTime.mock_now_value MockTime.max_mock_now_value].
  - cbn. f_equal. destruct (Z.ltb_spec v m); f_equal; lia.
  - cbn [MockTime.Now_times MockTime.Now MockTime.mock_now_value
           MockTime.max_mock_now_value].
    destruct (Z.ltb_spec v m) as [Hlt|Hge].
    + rewrite IH. cbn [MockTime.mock_now_value MockTime.max_mock_now_value seq map].
      rewrite <- seq_shift, map_map. f_equal.
      * f_equal; [lia|]. apply map_ext. intros k.
        destruct (Z.ltb_spec (v + 1) m); lia.
      * f_equal. destruct (Z.ltb_spec (v + 1) m); lia.
    + rewrite IH. cbn [MockTime.mock_now_value MockTime.max_mock_now_value seq map].
      rewrite <- seq_shift, map_map.
      destruct (Z.ltb_spec v m); [lia|]. reflexivity.
Qed.

(** What [n] calls of [Now()] in a row return.  Below its maximum the mock
    clock ticks by one microsecond per call until it reaches the maximum, and
    then stays there; at or above the maximum it does not move: the call
    number [k] (from 0) returns [min (v + k) m] in the first case and [v] in
    the second, for the value [v] and the maximum [m] before the calls. *)
Theorem mock_now_in_a_row (n : nat) (impl : MockTime.MockNowImpl) :
  let v := MockTime.mock_now_value impl in
  let m := MockTime.max_mock_now_value impl in
  let after (k : nat) := if v <? m then Z.min (v + Z.of_nat k) m else v in
  length (fst (MockTime.Now_times n impl)) = n /\
  (forall k : nat, (k < n)%nat ->
     nth_error (fst (MockTime.Now_times n impl)) k = Some (after k)) /\
  snd (MockTime.Now_times n impl) = MockTime.mkImpl (after n) m.
Proof.
  cbn zeta. rewrite Now_times_eq. cbn [fst snd].
  split; [rewrite length_map, length_seq; reflexivity|]. split; [|reflexivity].
  intros k Hk. rewrite nth_error_map, nth_error_seq.
  destruct (Nat.ltb_spec k n); [reflexivity|lia].
Qed.

Lemma mock_now_in_a_row_witness :
  (2 < 5)%nat /\
  nth_error (fst (MockTime.Now_times 5 (MockTime.mkImpl 7 9))) 2 = Some 9 /\
  nth_error (fst (MockTime.Now_times 5 (MockTime.mkImpl 7 9))) 4 = Some 9.
Proof.
  assert (H2 : (2 < 5)%nat) by lia. assert (H4 : (4 < 5)%nat) by lia.
  split; [exact H2|].
  destruct (mock_now_in_a_row 5 (MockTime.mkImpl 7 9)) as (_ & H & _).
  split; [exact (H 2%nat H2) | exact (H 4%nat H4)].
Defined.

(** The two ways to set the mock clock.  After [ResetToZero()] the calls of
    [Now()] return 0, 1, 2, ... (for the first [10^9] calls); after a
    [SetNow(us)] that succeeds, with the default maximum and [us >= 0], the
    clock is frozen: every [Now()] returns [us]. *)
Theorem mock_clock_after_setting (n : nat) (us : Z) (impl : MockTime.MockNowImpl) :
  (Z.of_nat n <= 1000000000 ->
   fst (MockTime.Now_times n (MockTime.ResetToZero impl)) = map Z.of_nat (seq 0 n)) /\
  (0 <= us -> MockTime.mock_now_value impl <= us ->
   fst (MockTime.SetNow_default us impl) = inl tt /\
   MockTime.Now_times n (snd (MockTime.SetNow_default us impl))
     = (repeat us n, MockTime.mkImpl us 0)).
Proof.
  split.
  - intros Hn. rewrite Now_times_eq. cbn [fst MockTime.ResetToZero
      MockTime.mock_now_value MockTime.max_mock_now_value].
    apply map_ext_in. intros k Hk. apply in_seq in Hk.
    change (0 <? 1000 * 1000 * 1000) with true. cbn match. lia.
  - intros Hus Hv. unfold MockTime.SetNow_default, MockTime.SetNow.
    destruct (Z.leb_spec (MockTime.mock_now_value impl) us); [|lia].
    split; [reflexivity|]. cbn [snd]. rewrite Now_times_eq.
    cbn [MockTime.mock_now_value MockTime.max_mock_now_value].
    destruct (Z.ltb_spec us 0); [lia|]. f_equal.
    clear. generalize 0%nat. induction n as [|n IH]; intros a; [reflexivity|].
    cbn. f_equal. apply IH.
Qed.

Lemma mock_clock_after_setting_witness :
  (Z.of_nat 3 <= 1000000000 /\ 0 <= 42 /\
   MockTime.mock_now_value MockTime.singleton <= 42) /\
  fst (MockTime.Now_times 3 (MockTime.ResetToZero MockTime.singleton)) = [0; 1; 2] /\
  MockTime.Now_times 3 (snd (MockTime.SetNow_default 42 MockTime.singleton))
    = ([42; 42; 42], MockTime.mkImpl 42 0).
Proof.
  assert (H1 : Z.of_nat 3 <= 1000000000) by (vm_compute; discriminate).
  assert (H2 : 0 <= 42) by (vm_compute; discriminate).
  assert (H3 : MockTime.mock_now_value MockTime.singleton <= 42)
    by (vm_compute; discriminate).
  split; [repeat split; assumption|].
  destruct (mock_clock_after_setting 3 42 MockTime.singleton) as [Hreset Hset].
  split; [exact (Hreset H1) | exact (proj2 (Hset H2 H3))].
Defined.

(** The mock clock never goes back.  Over any sequence of calls of [Now()]
    and [SetNow(us, max_us)], the throwing ones included, the values that
    [Now()] returns never decrease, none is below the value the clock started
    with, and the clock ends at or above it.  (Only [ResetToZero()] moves the
    clock back.) *)
Theorem mock_clock_never_goes_back (cs : list MockTime.call) : forall impl,
  StronglySorted Z.le (fst (MockTime.calls cs impl)) /\
  Forall (fun now => MockTime.mock_now_value impl <= now) (fst (MockTime.calls cs impl)) /\
  MockTime.mock_now_value impl <= MockTime.mock_now_value (snd (MockTime.calls cs impl)).
Proof.
  induction cs as [|[|us max_us] cs IH]; intros impl.
  - cbn. repeat split; [constructor|constructor|lia].
  - cbn [MockTime.calls MockTime.Now].
    set (impl' := if MockTime.mock_now_value impl <? MockTime.max_mock_now_value impl
                  then _ else _).
    assert (Hv : MockTime.mock_now_value impl <= MockTime.mock_now_value impl').
    { subst impl'. destruct (Z.ltb_spec (MockTime.mock_now_value impl)
                               (MockTime.max_mock_now_value impl)); cbn; lia. }
    destruct (IH impl') as (Hs & Hf & Hl).
    destruct (MockTime.calls cs impl') as [rest impl'']. cbn [fst snd] in *.
    assert (Hall : Forall (fun now => MockTime.mock_now_value impl <= now) rest).
    { eapply List.Forall_impl; [|exact Hf]. cbn. intros; lia. }
    repeat split; [constructor; assumption|constructor; [lia|assumption]|lia].
  - cbn [MockTime.calls].
    assert (Hv : MockTime.mock_now_value impl
                 <= MockTime.mock_now_value (snd (MockTime.SetNow us max_us impl))).
    { unfold MockTime.SetNow.
      destruct (Z.leb_spec (MockTime.mock_now_value impl) us); cbn; lia. }
    destruct (IH (snd (MockTime.SetNow us max_us impl))) as (Hs & Hf & Hl).
    repeat split; [assumption| |lia].
    eapply List.Forall_impl; [|exact Hf]. cbn. intros; lia.
Qed.

(** The value of the clock after a sequence of calls is at or above the
    value before it. *)
Lemma calls_value_mono (cs : list MockTime.call) : forall impl,
  MockTime.mock_now_value impl <= MockTime.mock_now_value (snd (MockTime.calls cs impl)).
Proof.
  induction cs as [|[|us max_us] cs IH]; intros impl.
  - cbn. lia.
  - cbn [MockTime.calls MockTime.Now].
    set (impl' := if MockTime.mock_now_value impl <? MockTime.max_mock_now_value impl
                  then _ else _).
    assert (Hv : MockTime.mock_now_value impl <= MockTime.mock_now_value impl').
    { subst impl'. destruct (Z.ltb_spec (MockTime.mock_now_value impl)
                               (MockTime.max_mock_now_value impl)); cbn; lia. }
    specialize (IH impl'). destruct (MockTime.calls cs impl') as [rest impl''].
    cbn [snd] in *. lia.
  - cbn [MockTime.calls]. specialize (IH (snd (MockTime.SetNow us max_us impl))).
    unfold MockTime.SetNow in *.
    destruct (Z.leb_spec (MockTime.mock_now_value impl) us); cbn [snd] in *;
      cbn [MockTime.mock_now_value] in *; lia.
Qed.

(** The mock clock cannot be set behind a time it has reported.  After any
    sequence of calls of [Now()] and [SetNow], a [SetNow(us, max_us)] with
    [us] below a value that some [Now()] of the sequence returned throws
    [InconsistentSetNowException(was, us)], with [was] at or above that
    value, and leaves the clock as it is. *)
Theorem set_now_back_is_refused (cs : list MockTime.call) : forall impl now us max_us,
  In now (fst (MockTime.calls cs impl)) ->
  us < now ->
  exists was,
    now <= was /\
    MockTime.SetNow us max_us (snd (MockTime.calls cs impl))
      = (inr (MockTime.mkException was us), snd (MockTime.calls cs impl)).
Proof.
  assert (Hrep : forall cs impl now,
            In now (fst (MockTime.calls cs impl)) ->
            now <= MockTime.mock_now_value (snd (MockTime.calls cs impl))).
  { clear. induction cs as [|[|us max_us] cs IH]; intros impl now Hin.
    - destruct Hin.
    - cbn [MockTime.calls] in *.
      pose proof (calls_value_mono cs (snd (MockTime.Now impl))) as Hmono.
      specialize (IH (snd (MockTime.Now impl)) now).
      destruct (MockTime.Now impl) as [now0 impl'] eqn:E. cbn [snd] in *.
      destruct (MockTime.calls cs impl') as [rest impl'']. cbn [fst snd] in *.
      destruct Hin as [<-|Hin]; [|exact (IH Hin)].
      assert (now0 <= MockTime.mock_now_value impl'); [|lia].
      unfold MockTime.Now in E. injection E as <- <-.
      destruct (Z.ltb_spec (MockTime.mock_now_value impl)
                  (MockTime.max_mock_now_value impl)); cbn; lia.
    - cbn [MockTime.calls] in *. exact (IH _ _ Hin). }
  intros impl now us max_us Hin Hlt. specialize (Hrep cs impl now Hin).
  exists (MockTime.mock_now_value (snd (MockTime.calls cs impl))).
  split; [exact Hrep|]. unfold MockTime.SetNow.
  destruct (Z.leb_spec (MockTime.mock_now_value (snd (MockTime.calls cs impl))) us);
    [lia|reflexivity].
Qed.

Lemma set_now_back_is_refused_witness :
  let impl := MockTime.mkImpl 100 200 in
  let cs := [MockTime.CallNow; MockTime.CallSetNow 150 160; MockTime.CallNow] in
  (In 150 (fst (MockTime.calls cs impl)) /\ 120 < 150) /\
  exists was,
    150 <= was /\
    MockTime.SetNow 120 0 (snd (MockTime.calls cs impl))
      = (inr (MockTime.mkException was 120), snd (MockTime.calls cs impl)).
Proof.
  assert (Hin : In 150 (fst (MockTime.calls
                  [MockTime.CallNow; MockTime.CallSetNow 150 160; MockTime.CallNow]
                  (MockTime.mkImpl 100 200))))
    by (vm_compute; right; left; reflexivity).
  assert (Hlt : 120 < 150) by (vm_compute; reflexivity).
  split; [split; [exact Hin|exact Hlt]|].
  exact (set_now_back_is_refused _ (MockTime.mkImpl 100 200) 150 120 0 Hin Hlt).
Defined.

(** ** The clock over the system clock *)

Lemma epoch_now_in_range r m0 B :
  0 <= m0 <= B -> 0 <= r <= B -> B + 1 < 2 ^ 63 ->
  EpochClockGuaranteeingMonotonicity.Now r m0 = (Z.max (m0 + 1) r, Z.max (m0 + 1) r).
Proof.
  intros Hm Hr HB. unfold EpochClockGuaranteeingMonotonicity.Now,
    EpochClockGuaranteeingMonotonicity.uint64,
    EpochClockGuaranteeingMonotonicity.microseconds.
  assert (H63 : 2 ^ 63 < 2 ^ 64) by (vm_compute; reflexivity).
  rewrite (Z.mod_small (m0 + 1)), (Z.mod_small r) by lia. cbn zeta.
  destruct (Z.ltb_spec (Z.max (m0 + 1) r) (2 ^ 63)); [reflexivity|lia].
Qed.

(** Whatever the system clock reads, going back included, the values that
    [EpochClockGuaranteeingMonotonicity::Now()] returns increase strictly,
    and each is at or above the reading it was made from, as long as the
    counter stays in the positive range of the signed 64-bit count that is
    returned: here the readings and the counter start between 0 and a bound
    [B], with [B] plus the number of calls below [2^63]. *)
Theorem epoch_clock_strictly_increases (readings : list Z) : forall m0 B,
  0 <= m0 <= B ->
  Forall (fun r => 0 <= r <= B) readings ->
  B + Z.of_nat (length readings) < 2 ^ 63 ->
  StronglySorted Z.lt (fst (EpochClockGuaranteeingMonotonicity.Now_along readings m0)) /\
  Forall (fun x => m0 < x) (fst (EpochClockGuaranteeingMonotonicity.Now_along readings m0)) /\
  Forall2 Z.le readings (fst (EpochClockGuaranteeingMonotonicity.Now_along readings m0)).
Proof.
  induction readings as [|r rs IH]; intros m0 B Hm Hr HB.
  - cbn. repeat split; constructor.
  - inversion Hr as [|? ? Hr0 Hrs]; subst.
    cbn [length] in HB. rewrite Nat2Z.inj_succ in HB.
    cbn [EpochClockGuaranteeingMonotonicity.Now_along].
    rewrite (epoch_now_in_range r m0 B Hm Hr0) by lia.
    destruct (IH (Z.max (m0 + 1) r) (B + 1)) as (Hs & Hf & H2).
    + lia.
    + eapply List.Forall_impl; [|exact Hrs]. cbn. intros; lia.
    + lia.
    + destruct (EpochClockGuaranteeingMonotonicity.Now_along rs (Z.max (m0 + 1) r))
        as [rest st]. cbn [fst] in *.
      repeat split.
      * constructor; assumption.
      * constructor; [lia|]. eapply List.Forall_impl; [|exact Hf]. cbn. intros; lia.
      * constructor; [lia|assumption].
Qed.

Lemma epoch_clock_strictly_increases_witness :
  (0 <= 0 <= 1000 /\ Forall (fun r => 0 <= r <= 1000) [1000; 900; 900; 1000] /\
   1000 + Z.of_nat (length [1000; 900; 900; 1000]) < 2 ^ 63) /\
  fst (EpochClockGuaranteeingMonotonicity.Now_along [1000; 900; 900; 1000] 0)
    = [1000; 1001; 1002; 1003] /\
  StronglySorted Z.lt
    (fst (EpochClockGuaranteeingMonotonicity.Now_along [1000; 900; 900; 1000] 0)).
Proof.
  assert (H1 : 0 <= 0 <= 1000) by lia.
  assert (H2 : Forall (fun r => 0 <= r <= 1000) [1000; 900; 900; 1000])
    by (repeat constructor; lia).
  assert (H3 : 1000 + Z.of_nat (length [1000; 900; 900; 1000]) < 2 ^ 63)
    by (vm_compute; reflexivity).
  split; [split; [exact H1|split; [exact H2|exact H3]]|].
  split; [vm_compute; reflexivity|].
  exact (proj1 (epoch_clock_strictly_increases [1000; 900; 900; 1000] 0 1000 H1 H2 H3)).
Defined.

(** Past the range: from [2^63] on the count returned is negative, below
    every value returned before; and at the top of the 64-bit range the
    counter itself wraps around, the next value being the reading. *)
Example epoch_clock_wraps :
  EpochClockGuaranteeingMonotonicity.Now 5 (2 ^ 63 - 2) = (2 ^ 63 - 1, 2 ^ 63 - 1) /\
  EpochClockGuaranteeingMonotonicity.Now 5 (2 ^ 63 - 1) = (- 2 ^ 63, 2 ^ 63) /\
  EpochClockGuaranteeingMonotonicity.Now 5 (2 ^ 64 - 1) = (5, 5).
Proof. vm_compute. repeat split. Qed.

(* ================================================================== *)
(** * [FixedSizeSerializer<std::chrono::microseconds>] *)
(* ================================================================== *)

Lemma digit_char_facts d :
  0 <= d < 10 ->
  FixedSizeSerializer.is_space (FixedSizeSerializer.digit_char d) = false /\
  Ascii.eqb (FixedSizeSerializer.digit_char d) "-"%char = false /\
  Ascii.eqb (FixedSizeSerializer.digit_char d) "+"%char = false /\
  FixedSizeSerializer.digit_value (FixedSizeSerializer.digit_char d) = Some d /\
  Z.of_nat (nat_of_ascii (FixedSizeSerializer.digit_char d)) - 48 = d.
Proof.
  intros Hd.
  assert (d = 0 \/ d = 1 \/ d = 2 \/ d = 3 \/ d = 4 \/ d = 5 \/ d = 6 \/ d = 7 \/
          d = 8 \/ d = 9) as H by lia.
  repeat destruct H as [H|H]; subst d; vm_compute; repeat split.
Qed.

Lemma fixed_length w n : length (FixedSizeSerializer.fixed w n) = w.
Proof. induction w as [|w IH]; cbn; [reflexivity|]. rewrite IH. reflexivity. Qed.

Lemma fixed_digits w n : Forall FixedSizeSerializer.is_digit (FixedSizeSerializer.fixed w n).
Proof.
  induction w as [|w IH]; cbn [FixedSizeSerializer.fixed]; constructor; [|exact IH].
  exists (n / 10 ^ Z.of_nat w mod 10). split; [|reflexivity].
  apply Z.mod_pos_bound. lia.
Qed.

Lemma number_of_fixed w n : FixedSizeSerializer.number_of (FixedSizeSerializer.fixed w n) = n mod 10 ^ Z.of_nat w.
Proof.
  induction w as [|w IH].
  - cbn. rewrite Z.mod_1_r. reflexivity.
  - cbn [FixedSizeSerializer.fixed FixedSizeSerializer.number_of]. rewrite fixed_length, IH.
    destruct (digit_char_facts (n / 10 ^ Z.of_nat w mod 10)) as (_ & _ & _ & _ & ->).
    { apply Z.mod_pos_bound. lia. }
    rewrite Nat2Z.inj_succ, Z.pow_succ_r by lia.
    rewrite (Z.mul_comm 10), Z.rem_mul_r by lia. lia.
Qed.

Lemma number_of_bound s :
  Forall FixedSizeSerializer.is_digit s -> 0 <= FixedSizeSerializer.number_of s < 10 ^ Z.of_nat (length s).
Proof.
  induction 1 as [|c s (d & Hd & ->) Hs IH].
  - cbn. lia.
  - cbn [FixedSizeSerializer.number_of length].
    destruct (digit_char_facts d Hd) as (_ & _ & _ & _ & ->).
    rewrite Nat2Z.inj_succ, Z.pow_succ_r by lia. nia.
Qed.

Lemma read_digits_number s : forall acc any,
  Forall FixedSizeSerializer.is_digit s -> (any = true \/ s <> []) ->
  FixedSizeSerializer.read_digits acc any s = Some (acc * 10 ^ Z.of_nat (length s) + FixedSizeSerializer.number_of s).
Proof.
  induction s as [|c s IH]; intros acc any Hs Hany.
  - destruct Hany as [-> | []]; [|reflexivity]. cbn. f_equal. lia.
  - inversion Hs as [|? ? (d & Hd & ->) Hs']; subst.
    cbn [FixedSizeSerializer.read_digits FixedSizeSerializer.number_of length].
    destruct (digit_char_facts d Hd) as (_ & _ & _ & -> & ->).
    rewrite IH by auto. f_equal.
    rewrite Nat2Z.inj_succ, Z.pow_succ_r by lia. lia.
Qed.

Lemma string_compare_number a : forall b,
  length a = length b -> Forall FixedSizeSerializer.is_digit a -> Forall FixedSizeSerializer.is_digit b ->
  FixedSizeSerializer.string_compare a b = Z.compare (FixedSizeSerializer.number_of a) (FixedSizeSerializer.number_of b).
Proof.
  induction a as [|x a IH]; intros [|y b] Hlen Ha Hb; try discriminate.
  - reflexivity.
  - inversion Ha as [|? ? (dx & Hdx & ->) Ha']; subst.
    inversion Hb as [|? ? (dy & Hdy & ->) Hb']; subst.
    cbn [FixedSizeSerializer.string_compare FixedSizeSerializer.number_of].
    injection Hlen as Hlen.
    destruct (digit_char_facts dx Hdx) as (_ & _ & _ & _ & Ex).
    destruct (digit_char_facts dy Hdy) as (_ & _ & _ & _ & Ey).
    rewrite Ex, Ey, <- Hlen.
    pose proof (number_of_bound a Ha') as Ba.
    pose proof (number_of_bound b Hb') as Bb. rewrite <- Hlen in Bb.
    set (P := 10 ^ Z.of_nat (length a)) in *.
    assert (HP : 0 < P) by (apply Z.pow_pos_nonneg; lia).
    destruct (Nat.compare_spec (nat_of_ascii (FixedSizeSerializer.digit_char dx))
                               (nat_of_ascii (FixedSizeSerializer.digit_char dy))) as [He|Hl|Hg].
    + assert (dx = dy) as -> by lia.
      rewrite (IH b Hlen Ha' Hb'). symmetry. apply Z.add_compare_mono_l.
    + symmetry. apply Z.compare_lt_iff. nia.
    + symmetry. apply Z.compare_gt_iff. nia.
Qed.

Lemma fixed_snoc k : forall n,
  FixedSizeSerializer.fixed (S k) n = FixedSizeSerializer.fixed k (n / 10) ++ [FixedSizeSerializer.digit_char (n mod 10)].
Proof.
  induction k as [|k IH]; intros n.
  - cbn. rewrite Z.div_1_r. reflexivity.
  - change (FixedSizeSerializer.fixed (S (S k)) n)
      with (FixedSizeSerializer.digit_char (n / 10 ^ Z.of_nat (S k) mod 10) :: FixedSizeSerializer.fixed (S k) n).
    rewrite IH.
    change (FixedSizeSerializer.fixed (S k) (n / 10))
      with (FixedSizeSerializer.digit_char (n / 10 / 10 ^ Z.of_nat k mod 10) :: FixedSizeSerializer.fixed k (n / 10)).
    rewrite Nat2Z.inj_succ, Z.pow_succ_r, Z.div_div by lia. reflexivity.
Qed.

Lemma decimal_from_fixed fuel : forall n acc,
  0 <= n < 10 ^ Z.of_nat fuel -> (1 <= fuel)%nat ->
  exists k, (1 <= k <= fuel)%nat /\ n < 10 ^ Z.of_nat k /\
            FixedSizeSerializer.decimal_from fuel n acc = FixedSizeSerializer.fixed k n ++ acc.
Proof.
  induction fuel as [|f IH]; intros n acc Hn Hf; [lia|].
  cbn [FixedSizeSerializer.decimal_from].
  rewrite Nat2Z.inj_succ, Z.pow_succ_r in Hn by lia.
  destruct (Z.eqb_spec (n / 10) 0) as [E|E].
  - exists 1%nat. split; [lia|]. split.
    + change (10 ^ Z.of_nat 1) with 10.
      pose proof (Z.div_mod n 10 ltac:(lia)). pose proof (Z.mod_pos_bound n 10 ltac:(lia)). lia.
    + cbn. rewrite Z.div_1_r. reflexivity.
  - assert (Hq : 1 <= n / 10 < 10 ^ Z.of_nat f).
    { split.
      - pose proof (Z.div_pos n 10 ltac:(lia) ltac:(lia)). lia.
      - apply Z.div_lt_upper_bound; lia. }
    assert (Hf' : (1 <= f)%nat).
    { destruct f; [cbn in Hq; lia|lia]. }
    destruct (IH (n / 10) (FixedSizeSerializer.digit_char (n mod 10) :: acc)) as (k & Hk & Hlt & ->);
      [lia|exact Hf'|].
    exists (S k). split; [lia|]. split.
    + rewrite Nat2Z.inj_succ, Z.pow_succ_r by lia.
      pose proof (Z.div_mod n 10 ltac:(lia)). pose proof (Z.mod_pos_bound n 10 ltac:(lia)). lia.
    + rewrite fixed_snoc, <- app_assoc. reflexivity.
Qed.

Lemma fixed_pad w : forall k n,
  0 <= n < 10 ^ Z.of_nat k -> (k <= w)%nat ->
  FixedSizeSerializer.fixed w n = repeat "0"%char (w - k) ++ FixedSizeSerializer.fixed k n.
Proof.
  induction w as [|w IH]; intros k n Hn Hk.
  - assert (k = 0%nat) as -> by lia. reflexivity.
  - destruct (Nat.eq_dec k (S w)) as [->|Hne].
    + rewrite Nat.sub_diag. reflexivity.
    + replace (S w - k)%nat with (S (w - k)) by lia.
      cbn [FixedSizeSerializer.fixed repeat app]. rewrite <- (IH k n Hn) by lia. f_equal.
      assert (10 ^ Z.of_nat k <= 10 ^ Z.of_nat w) by (apply Z.pow_le_mono_r; lia).
      rewrite Z.div_small by lia. reflexivity.
Qed.

Lemma PackToString_fixed x :
  FixedSizeSerializer.PackToString x = FixedSizeSerializer.fixed 20 (FixedSizeSerializer.to_uint64 x).
Proof.
  unfold FixedSizeSerializer.PackToString, FixedSizeSerializer.decimal, FixedSizeSerializer.setw_fill0, FixedSizeSerializer.size_in_bytes.
  assert (Hu : 0 <= FixedSizeSerializer.to_uint64 x < 2 ^ 64)
    by (unfold FixedSizeSerializer.to_uint64; apply Z.mod_pos_bound; lia).
  destruct (decimal_from_fixed 20 (FixedSizeSerializer.to_uint64 x) []) as (k & Hk & Hlt & ->);
    [change (10 ^ Z.of_nat 20) with 100000000000000000000;
     change (2 ^ 64) with 18446744073709551616 in Hu; lia | lia |].
  rewrite app_nil_r, fixed_length. change (19 + 1)%nat with 20%nat.
  symmetry. apply fixed_pad; lia.
Qed.

(** A packed count has the fixed size of [size_in_bytes = 20] characters,
    whatever the count. *)
Theorem packed_size_is_fixed x : length (FixedSizeSerializer.PackToString x) = FixedSizeSerializer.size_in_bytes.
Proof. rewrite PackToString_fixed. apply fixed_length. Qed.

Lemma to_int64_to_uint64 x :
  - 2 ^ 63 <= x < 2 ^ 63 -> FixedSizeSerializer.to_int64 (FixedSizeSerializer.to_uint64 x) = x.
Proof.
  intros Hx. unfold FixedSizeSerializer.to_int64, FixedSizeSerializer.to_uint64.
  change (2 ^ 63) with 9223372036854775808 in *.
  change (2 ^ 64) with 18446744073709551616 in *.
  pose proof (Z.mod_pos_bound x 18446744073709551616 ltac:(lia)) as Hb.
  pose proof (Z.div_mod x 18446744073709551616 ltac:(lia)) as Hd.
  destruct (Z.ltb_spec (x mod 18446744073709551616) 9223372036854775808); lia.
Qed.

Lemma extract_fixed u :
  0 <= u < 2 ^ 64 -> FixedSizeSerializer.extract_uint64 (FixedSizeSerializer.fixed 20 u) = u.
Proof.
  intros Hu.
  assert (Hread : FixedSizeSerializer.read_digits 0 false (FixedSizeSerializer.fixed 20 u) = Some u).
  { rewrite read_digits_number.
    - rewrite number_of_fixed, fixed_length. f_equal.
      change (10 ^ Z.of_nat 20) with 100000000000000000000.
      change (2 ^ 64) with 18446744073709551616 in Hu.
      rewrite Z.mod_small by lia. lia.
    - apply fixed_digits.
    - right. discriminate. }
  unfold FixedSizeSerializer.extract_uint64.
  change (FixedSizeSerializer.fixed 20 u)
    with (FixedSizeSerializer.digit_char (u / 10 ^ Z.of_nat 19 mod 10) :: FixedSizeSerializer.fixed 19 u) in *.
  destruct (digit_char_facts (u / 10 ^ Z.of_nat 19 mod 10)) as (Hsp & Hm & Hp & _).
  { apply Z.mod_pos_bound. lia. }
  cbn [FixedSizeSerializer.skip_space]. rewrite Hsp, Hm, Hp, Hread.
  destruct (Z.leb_spec (2 ^ 64) u); [lia|reflexivity].
Qed.

(** [UnpackFromString] undoes [PackToString] on every count that a
    [microseconds] can hold, the negative ones included. *)
Theorem unpack_after_pack x :
  - 2 ^ 63 <= x < 2 ^ 63 -> FixedSizeSerializer.UnpackFromString (FixedSizeSerializer.PackToString x) = x.
Proof.
  intros Hx. unfold FixedSizeSerializer.UnpackFromString. rewrite PackToString_fixed, extract_fixed.
  - apply to_int64_to_uint64, Hx.
  - unfold FixedSizeSerializer.to_uint64. apply Z.mod_pos_bound. lia.
Qed.

(** Packed counts compare as texts the way the counts compare as unsigned
    64-bit numbers; so, for counts that are not negative, the order of the
    texts is the order of the counts. *)
Theorem packed_order_is_numeric_order x y :
  FixedSizeSerializer.string_compare (FixedSizeSerializer.PackToString x) (FixedSizeSerializer.PackToString y)
    = Z.compare (FixedSizeSerializer.to_uint64 x) (FixedSizeSerializer.to_uint64 y) /\
  (0 <= x < 2 ^ 64 -> 0 <= y < 2 ^ 64 ->
   FixedSizeSerializer.string_compare (FixedSizeSerializer.PackToString x) (FixedSizeSerializer.PackToString y) = Z.compare x y).
Proof.
  assert (H : FixedSizeSerializer.string_compare (FixedSizeSerializer.PackToString x) (FixedSizeSerializer.PackToString y)
              = Z.compare (FixedSizeSerializer.to_uint64 x) (FixedSizeSerializer.to_uint64 y)).
  { rewrite !PackToString_fixed.
    rewrite string_compare_number by (rewrite ?fixed_length; auto using fixed_digits).
    rewrite !number_of_fixed.
    assert (Hs : forall z, FixedSizeSerializer.to_uint64 z mod 10 ^ Z.of_nat 20 = FixedSizeSerializer.to_uint64 z).
    { intros z. apply Z.mod_small. unfold FixedSizeSerializer.to_uint64.
      pose proof (Z.mod_pos_bound z (2 ^ 64) ltac:(lia)).
      change (10 ^ Z.of_nat 20) with 100000000000000000000.
      change (2 ^ 64) with 18446744073709551616 in *. lia. }
    rewrite !Hs. reflexivity. }
  split; [exact H|]. intros Hx Hy. rewrite H. unfold FixedSizeSerializer.to_uint64.
  rewrite !Z.mod_small by lia. reflexivity.
Qed.

Lemma unpack_after_pack_witness :
  - 2 ^ 63 <= -1 < 2 ^ 63 /\
  FixedSizeSerializer.UnpackFromString (FixedSizeSerializer.PackToString (-1)) = -1.
Proof.
  assert (H : - 2 ^ 63 <= -1 < 2 ^ 63) by (split; vm_compute; [discriminate|reflexivity]).
  split; [exact H|]. exact (unpack_after_pack (-1) H).
Defined.

Lemma packed_order_is_numeric_order_witness :
  (0 <= 999 < 2 ^ 64 /\ 0 <= 1000 < 2 ^ 64) /\
  FixedSizeSerializer.string_compare
    (FixedSizeSerializer.PackToString 999) (FixedSizeSerializer.PackToString 1000) = Lt.
Proof.
  assert (H1 : 0 <= 999 < 2 ^ 64) by (split; vm_compute; [discriminate|reflexivity]).
  assert (H2 : 0 <= 1000 < 2 ^ 64) by (split; vm_compute; [discriminate|reflexivity]).
  split; [split; assumption|].
  exact (proj2 (packed_order_is_numeric_order 999 1000) H1 H2).
Defined.

(** The text of a count, and of a negative one. *)
Example packed_examples :
  FixedSizeSerializer.PackToString 1234567
    = String.list_ascii_of_string "00000000000001234567" /\
  FixedSizeSerializer.PackToString (-1)
    = String.list_ascii_of_string "18446744073709551615".
Proof. vm_compute. split; reflexivity. Qed.

(* ================================================================== *)
(** * The RESTful endpoint of [Storage/rest.h] *)
(* ================================================================== *)

Section RESTfulEndpoint.

Import RESTfulStorage.

Context {KEY ENTRY FIELD : Type}.
Variable FromString : string -> KEY.
Variable ParseJSON : string -> option ENTRY.
Variable lookup : FIELD -> KEY -> option ENTRY.
Variable Add : ENTRY -> FIELD -> FIELD.
Variable Erase : KEY -> FIELD -> FIELD.

Abbreviation handle := (handle FromString ParseJSON lookup Add Erase).
Abbreviation serve := (serve FromString ParseJSON lookup Add Erase).

(** Only a request answered with 204 (No Content) touches the field, and such
    a request is a [POST] without a key in the URL and with a body that
    parses, which adds the parsed entry, or a [DELETE] with exactly one key
    in the URL, which erases that key.  Every other request (a [GET], a
    request with the wrong number of keys, a body that does not parse, any
    other method) leaves the field as it was. *)
Theorem rest_field_changes_only_with_204 (request : Request) (field : FIELD) :
  (code (fst (handle request field)) <> NoContent ->
   snd (handle request field) = field) /\
  (code (fst (handle request field)) = NoContent ->
   (method request = "POST"%string /\ url_path_args request = [] /\
    exists entry, ParseJSON (body request) = Some entry /\
                  snd (handle request field) = Add entry field) \/
   (method request = "DELETE"%string /\
    exists key, url_path_args request = [key] /\
                snd (handle request field) = Erase (FromString key) field)).
Proof.
  unfold RESTfulStorage.handle, Run_GET, Run_POST, Run_DELETE.
  destruct (String.eqb_spec (method request) "GET") as [Hg|Hg].
  - destruct (url_path_args request) as [|k [|k' args]]; cbn; try (split; [reflexivity|discriminate]).
    destruct (lookup field (FromString k)); cbn; split; (reflexivity || discriminate).
  - destruct (String.eqb_spec (method request) "POST") as [Hp|Hp].
    + destruct (url_path_args request) as [|k args]; cbn;
        try (split; [reflexivity|discriminate]).
      destruct (ParseJSON (body request)) as [entry|] eqn:E; cbn.
      * split; [intros []; reflexivity|]. intros _. left. eauto.
      * split; [reflexivity|discriminate].
    + destruct (String.eqb_spec (method request) "DELETE") as [Hd|Hd].
      * destruct (url_path_args request) as [|k [|k' args]]; cbn;
          try (split; [reflexivity|discriminate]).
        split; [intros []; reflexivity|]. intros _. right. eauto.
      * cbn. split; [reflexivity|discriminate].
Qed.

(** On a field whose container returns what was added under the key of the
    entry and nothing under an erased key: an entry that was posted is
    returned by the [GET] of its key, and after the [DELETE] of a key its
    [GET] is answered with 404 (Not Found). *)
Theorem rest_post_get_delete (key_of : ENTRY -> KEY) :
  (forall entry field, lookup (Add entry field) (key_of entry) = Some entry) ->
  (forall key field, lookup (Erase key field) key = None) ->
  forall (text key_text : string) (entry : ENTRY) (field : FIELD),
    ParseJSON text = Some entry ->
    FromString key_text = key_of entry ->
    fst (serve [mkRequest "POST" [] text; mkRequest "GET" [key_text] ""] field)
      = [mkResponse (Text ("Added." ++ newline)) NoContent;
         mkResponse (Entry entry) OK] /\
    fst (serve [mkRequest "DELETE" [key_text] ""; mkRequest "GET" [key_text] ""] field)
      = [mkResponse (Text ("Deleted." ++ newline)) NoContent;
         mkResponse (Text ("Nope." ++ newline)) NotFound].
Proof.
  intros Hadd Herase text key_text entry field Hparse Hkey.
  unfold RESTfulStorage.serve, RESTfulStorage.handle, Run_GET, Run_POST, Run_DELETE.
  cbn [method url_path_args body String.eqb Ascii.eqb Bool.eqb fst snd].
  rewrite Hparse. cbn [fst snd]. rewrite Hkey, Hadd, Herase. split; reflexivity.
Qed.

End RESTfulEndpoint.

Lemma rest_field_changes_only_with_204_witness :
  let request := RESTfulStorage.mkRequest "POST" [] "alpha" in
  RESTfulStorage.code (fst (RESTfulStorage.example_handle request ∅))
    = RESTfulStorage.NoContent /\
  RESTfulStorage.code
    (fst (RESTfulStorage.example_handle (RESTfulStorage.mkRequest "PUT" [] "alpha") ∅))
    <> RESTfulStorage.NoContent /\
  snd (RESTfulStorage.example_handle (RESTfulStorage.mkRequest "PUT" [] "alpha") ∅) = ∅ /\
  ((RESTfulStorage.method request = "POST"%string /\
    RESTfulStorage.url_path_args request = [] /\
    exists entry, RESTfulStorage.example_ParseJSON (RESTfulStorage.body request)
                    = Some entry /\
                  snd (RESTfulStorage.example_handle request ∅)
                    = RESTfulStorage.example_Add entry ∅) \/
   (RESTfulStorage.method request = "DELETE"%string /\
    exists key, RESTfulStorage.url_path_args request = [key] /\
                snd (RESTfulStorage.example_handle request ∅)
                  = RESTfulStorage.example_Erase key ∅)).
Proof.
  assert (H204 : RESTfulStorage.code
                   (fst (RESTfulStorage.example_handle
                           (RESTfulStorage.mkRequest "POST" [] "alpha") ∅))
                 = RESTfulStorage.NoContent) by (vm_compute; reflexivity).
  assert (H405 : RESTfulStorage.code
                   (fst (RESTfulStorage.example_handle
                           (RESTfulStorage.mkRequest "PUT" [] "alpha") ∅))
                 <> RESTfulStorage.NoContent) by (vm_compute; discriminate).
  split; [exact H204|]. split; [exact H405|]. split.
  - exact (proj1 (rest_field_changes_only_with_204 (fun s => s)
                    RESTfulStorage.example_ParseJSON RESTfulStorage.example_lookup
                    RESTfulStorage.example_Add RESTfulStorage.example_Erase
                    (RESTfulStorage.mkRequest "PUT" [] "alpha") ∅) H405).
  - exact (proj2 (rest_field_changes_only_with_204 (fun s => s)
                    RESTfulStorage.example_ParseJSON RESTfulStorage.example_lookup
                    RESTfulStorage.example_Add RESTfulStorage.example_Erase
                    (RESTfulStorage.mkRequest "POST" [] "alpha") ∅) H204).
Defined.

Lemma rest_post_get_delete_witness :
  ((forall entry field,
      RESTfulStorage.example_lookup (RESTfulStorage.example_Add entry field) (fst entry)
        = Some entry) /\
   (forall key field,
      RESTfulStorage.example_lookup (RESTfulStorage.example_Erase key field) key = None) /\
   RESTfulStorage.example_ParseJSON "alpha" = Some ("alpha"%string, 1)) /\
  fst (RESTfulStorage.serve (fun s => s) RESTfulStorage.example_ParseJSON
         RESTfulStorage.example_lookup RESTfulStorage.example_Add
         RESTfulStorage.example_Erase
         [RESTfulStorage.mkRequest "POST" [] "alpha";
          RESTfulStorage.mkRequest "GET" ["alpha"%string] ""] ∅)
    = [RESTfulStorage.mkResponse
         (RESTfulStorage.Text ("Added." ++ RESTfulStorage.newline)) RESTfulStorage.NoContent;
       RESTfulStorage.mkResponse
         (RESTfulStorage.Entry ("alpha"%string, 1)) RESTfulStorage.OK].
Proof.
  assert (Hadd : forall entry field,
             RESTfulStorage.example_lookup (RESTfulStorage.example_Add entry field)
               (fst entry) = Some entry)
    by (intros; apply lookup_insert_eq).
  assert (Herase : forall key field,
             RESTfulStorage.example_lookup (RESTfulStorage.example_Erase key field) key
               = None)
    by (intros; apply lookup_delete_eq).
  assert (Hparse : RESTfulStorage.example_ParseJSON "alpha" = Some ("alpha"%string, 1))
    by reflexivity.
  split; [split; [exact Hadd|split; [exact Herase|exact Hparse]]|].
  exact (proj1 (rest_post_get_delete (fun s => s) RESTfulStorage.example_ParseJSON
                  RESTfulStorage.example_lookup RESTfulStorage.example_Add
                  RESTfulStorage.example_Erase fst Hadd Herase
                  "alpha" "alpha" ("alpha"%string, 1) ∅ Hparse eq_refl)).
Defined.
